(** * dymium-auth-plugin: the OpenCode plugin and the GhostLLM reasoning-stream handlers

    The repository holds
    - the reasoning-events guide with its Go helpers [sendReasoningEvent],
      [sendContentEvent], [sendDoneEvent] and the chat handler flow built on them
      (module [EventsGuide]);
    - the reasoning-stream guide with the Go handler [handleChatCompletion]
      (module [StreamGuide]);
    - the TypeScript plugin: [resolveToken] and the auth [fetch] wrapper
      (module [TokenPlugin]), [getDymiumToken], [dymiumFetch], [http11Request]
      and the session tracker behind the [event] hook (module [AuthPlugin]).

    Go strings are byte strings, so they are Rocq [string]s; a literal with a
    non-ASCII character stands for its UTF-8 bytes, as in Go.  A frame on the
    wire is kept as the JSON value a client decodes from it. *)

From Stdlib Require Import ZArith NArith Lia String Ascii List DecimalString.
From stdpp Require Import base tactics option list gmap strings sorting.
From Equations Require Import Equations.

(** ** JSON values

    [map[string]interface{}] literals handed to [json.Marshal] on the Go side and
    the result of [JSON.parse] on the TypeScript side.  Objects keep their members
    in order; numbers are carried as integers (every number the handlers build is
    one: [index], [created]). *)

#[local] Set Warnings "-register-all".

Inductive Json (S : Type) : Type :=
| JNull
| JBool (b : bool)
| JNum (n : Z)
| JStr (s : S)
| JArr (items : list (Json S))
| JObj (members : list (S * Json S)).

Arguments JNull {S}.
Arguments JBool {S} b.
Arguments JNum {S} n.
Arguments JStr {S} s.
Arguments JArr {S} items.
Arguments JObj {S} members.

Fixpoint assoc {K V : Type} `{EqDecision K} (k : K) (l : list (K * V)) : option V :=
  match l with
  | [] => None
  | (k', v) :: l' => if decide (k' = k) then Some v else assoc k l'
  end.

(** [j.k] for an object member, [None] when [j] is no object or has no such member. *)
Definition member {S : Type} `{EqDecision S} (k : S) (j : Json S) : option (Json S) :=
  match j with
  | JObj members => assoc k members
  | _ => None
  end.

(** [j[i]] for an array element. *)
Definition element {S : Type} (i : nat) (j : Json S) : option (Json S) :=
  match j with
  | JArr items => items !! i
  | _ => None
  end.

(** ** The Go side: response writer, wire items and handler effects *)

(** What a handler puts on the wire: an SSE frame ["data: <json>\n\n"], the end
    sentinel ["data: [DONE]\n\n"], or plain text (the body [http.Error] prints). *)
Inductive Wire : Type :=
| SSE (payload : Json string)
| SSE_DONE
| Plain (text : string).

(** [http.ResponseWriter]: whether its dynamic type implements [http.Flusher],
    the header map, the status passed to [WriteHeader] (if any), everything
    written so far, and how much of it [Flush] has pushed to the client. *)
Record ResponseWriter : Type := {
  is_Flusher : bool;
  header : gmap string string;
  status : option Z;
  body : list Wire;
  flushed : nat
}.

Definition Header_Set (k v : string) (w : ResponseWriter) : ResponseWriter :=
  {| is_Flusher := is_Flusher w; header := <[k := v]> (header w);
     status := status w; body := body w; flushed := flushed w |}.

Definition Header_Del (k : string) (w : ResponseWriter) : ResponseWriter :=
  {| is_Flusher := is_Flusher w; header := delete k (header w);
     status := status w; body := body w; flushed := flushed w |}.

Definition WriteHeader (code : Z) (w : ResponseWriter) : ResponseWriter :=
  {| is_Flusher := is_Flusher w; header := header w;
     status := Some code; body := body w; flushed := flushed w |}.

Definition Fprint (item : Wire) (w : ResponseWriter) : ResponseWriter :=
  {| is_Flusher := is_Flusher w; header := header w;
     status := status w; body := body w ++ [item]; flushed := flushed w |}.

Definition Flush (w : ResponseWriter) : ResponseWriter :=
  {| is_Flusher := is_Flusher w; header := header w;
     status := status w; body := body w; flushed := length (body w) |}.

Definition newline : string := String (ascii_of_nat 10) "".

(** Go's [http.Error]. *)
Definition http_Error (msg : string) (code : Z) (w : ResponseWriter) : ResponseWriter :=
  Fprint (Plain (msg +:+ newline))
    (WriteHeader code
       (Header_Set "X-Content-Type-Options" "nosniff"
          (Header_Set "Content-Type" "text/plain; charset=utf-8"
             (Header_Del "Content-Length" w)))).

(** A handler step: it threads a state and either returns or panics (a failed
    type assertion, a nil dereference); a panic keeps what was written before. *)
Inductive Outcome (A : Type) : Type :=
| Returned (a : A)
| Panicked.
Arguments Returned {A} a.
Arguments Panicked {A}.

Definition Go (St A : Type) : Type := St -> Outcome A * St.

Definition ret {St A : Type} (a : A) : Go St A := fun s => (Returned a, s).

Definition bind {St A B : Type} (m : Go St A) (k : A -> Go St B) : Go St B :=
  fun s => match m s with
           | (Returned a, s') => k a s'
           | (Panicked, s') => (Panicked, s')
           end.

Definition panic {St A : Type} : Go St A := fun s => (Panicked, s).

Notation "'do' x <- m 'in' k" := (bind m (fun x => k))
  (at level 10, x name, m at level 100, k at level 200).
Notation "m '>>' k" := (bind m (fun _ => k))
  (at level 90, right associativity).

(** A step on the response writer, and a call that reads the environment
    (a clock, an id generator) by stepping an oracle. *)
Definition on_writer {Oracle : Type} (f : ResponseWriter -> ResponseWriter)
    : Go (ResponseWriter * Oracle) unit :=
  fun s => (Returned tt, (f (fst s), snd s)).

Definition ask {Oracle A : Type} (f : Oracle -> A * Oracle)
    : Go (ResponseWriter * Oracle) A :=
  fun s => let (a, o) := f (snd s) in (Returned a, (fst s, o)).

(** [%d] of an integer. *)
Definition itoa (z : Z) : string := NilZero.string_of_int (Z.to_int z).

(** *** Reading a frame back *)

Definition frame_id (f : Json string) : option (Json string) := member "id" f.

Definition choice0 (f : Json string) : option (Json string) :=
  member "choices" f ≫= element 0.

Definition frame_delta (f : Json string) : option (Json string) :=
  choice0 f ≫= member "delta".

Definition finish_reason (f : Json string) : option (Json string) :=
  choice0 f ≫= member "finish_reason".

Definition reasoning_content (f : Json string) : option string :=
  match frame_delta f ≫= member "reasoning_content" with
  | Some (JStr s) => Some s
  | _ => None
  end.

Definition frame_content (f : Json string) : option string :=
  match frame_delta f ≫= member "content" with
  | Some (JStr s) => Some s
  | _ => None
  end.

(** A frame "has a non-null finish reason" when the key is there with a value
    other than [null]. *)
Definition has_finish_reason (f : Json string) : bool :=
  match finish_reason f with
  | Some JNull | None => false
  | Some _ => true
  end.

(** The SSE frames of a body, in emission order. *)
Definition frames (items : list Wire) : list (Json string) :=
  omap (fun item => match item with SSE f => Some f | _ => None end) items.

(** The content fragments of a body, in emission order. *)
Definition fragments (items : list Wire) : list string :=
  omap frame_content (frames items).

(** *** UTF-8 *)

(** A byte [10xxxxxx] continues a multi-byte character. *)
Definition is_continuation_byte (a : ascii) : bool :=
  (N.land (N_of_ascii a) 192 =? 128)%N.

(** Offset [i] of [s] is a character boundary when it is the end of [s] or the
    byte there starts a character. *)
Definition on_char_boundary (s : string) (i : nat) : bool :=
  match String.get i s with
  | Some a => negb (is_continuation_byte a)
  | None => true
  end.

(** The offsets at which a list of fragments cuts their concatenation. *)
Fixpoint cut_offsets (from : nat) (frags : list string) : list nat :=
  match frags with
  | [] => []
  | [_] => []
  | f :: rest => (from + String.length f) :: cut_offsets (from + String.length f) rest
  end.

(** *** Strings as [json.Marshal] writes them *)

Definition byte_in (lo hi : N) (a : ascii) : bool :=
  ((lo <=? N_of_ascii a) && (N_of_ascii a <=? hi))%N.

(** [utf8.DecodeRuneInString]: the size in bytes of the character [s] starts
    with, [None] when the bytes there encode no character (Go then returns
    [RuneError] with size 1). *)
Definition rune_size (s : string) : option nat :=
  match s with
  | "" => None
  | String b0 rest =>
      if byte_in 0 127 b0 then Some 1
      else if byte_in 194 223 b0 then
        match rest with
        | String b1 _ => if byte_in 128 191 b1 then Some 2 else None
        | _ => None
        end
      else if byte_in 224 239 b0 then
        let lo := if byte_in 224 224 b0 then 160%N else 128%N in
        let hi := if byte_in 237 237 b0 then 159%N else 191%N in
        match rest with
        | String b1 (String b2 _) =>
            if byte_in lo hi b1 && byte_in 128 191 b2 then Some 3 else None
        | _ => None
        end
      else if byte_in 240 244 b0 then
        let lo := if byte_in 240 240 b0 then 144%N else 128%N in
        let hi := if byte_in 244 244 b0 then 143%N else 191%N in
        match rest with
        | String b1 (String b2 (String b3 _)) =>
            if byte_in lo hi b1 && byte_in 128 191 b2 && byte_in 128 191 b3
            then Some 4 else None
        | _ => None
        end
      else None
  end.

(** U+FFFD, the replacement character, in UTF-8. *)
Definition replacement_character : string :=
  String (ascii_of_nat 239) (String (ascii_of_nat 191) (String (ascii_of_nat 189) "")).

(** The string a JSON decoder reads back from what [json.Marshal] writes for
    [s]: every character is kept (escapes decode to the bytes they stand
    for), and every byte that starts no character is replaced by U+FFFD.
    [inside] counts the bytes still to copy of a character already decoded. *)
Fixpoint json_string_from (inside : nat) (s : string) : string :=
  match s with
  | "" => ""
  | String b rest =>
      match inside with
      | S k => String b (json_string_from k rest)
      | O =>
          match rune_size s with
          | Some n => String b (json_string_from (n - 1) rest)
          | None => replacement_character +:+ json_string_from 0 rest
          end
      end
  end.

Definition json_string (s : string) : string := json_string_from 0 s.

(** The value a JSON decoder reads back from [json.Marshal(j)]. *)
Fixpoint json_Marshal (j : Json string) : Json string :=
  match j with
  | JStr s => JStr (json_string s)
  | JArr items => JArr (List.map json_Marshal items)
  | JObj members =>
      JObj (List.map (fun kv => (json_string (fst kv), json_Marshal (snd kv))) members)
  | _ => j
  end.

(** [utf8.ValidString], from inside a character. *)
Fixpoint utf8_valid_from (inside : nat) (s : string) : bool :=
  match s with
  | "" => match inside with O => true | S _ => false end
  | String b rest =>
      match inside with
      | S k => utf8_valid_from k rest
      | O =>
          match rune_size s with
          | Some n => utf8_valid_from (n - 1) rest
          | None => false
          end
      end
  end.

Definition utf8_ValidString (s : string) : bool := utf8_valid_from 0 s.

Fixpoint all_ascii (s : string) : bool :=
  match s with
  | "" => true
  | String b rest => byte_in 0 127 b && all_ascii rest
  end.

(** ** Reading a stream as a sequence of phases *)

Definition fresh_writer (flusher : bool) : ResponseWriter :=
  {| is_Flusher := flusher; header := ∅; status := None; body := []; flushed := 0 |}.

(** What a wire item is, read off its JSON: a frame with a non-null finish
    reason is the terminal frame, one with [reasoning_content] a status frame,
    one with [content] a content frame. *)
Inductive Shape : Type :=
| Terminal (reason : Json string)
| Reasoning (message : string)
| ContentFrame (fragment : string)
| OtherFrame
| DoneMark
| PlainText (text : string).

Definition shape_of (item : Wire) : Shape :=
  match item with
  | SSE f =>
      if has_finish_reason f
      then Terminal (default JNull (finish_reason f))
      else match reasoning_content f, frame_content f with
           | Some m, _ => Reasoning m
           | None, Some c => ContentFrame c
           | None, None => OtherFrame
           end
  | SSE_DONE => DoneMark
  | Plain t => PlainText t
  end.

Definition is_terminal (sh : Shape) : bool :=
  match sh with Terminal _ => true | _ => false end.

Definition is_content (sh : Shape) : bool :=
  match sh with ContentFrame _ => true | _ => false end.

(** ** Properties of a stream *)

(** Every cut between two fragments falls on a character boundary of the content. *)
Definition cuts_on_char_boundaries (content : string) (frags : list string) : bool :=
  forallb (on_char_boundary content) (cut_offsets 0 frags).

(** All frames carry one and the same id. *)
Definition one_id (items : list Wire) : Prop :=
  exists id, Forall (fun f => frame_id f = Some id) (frames items).

(** The stream ends with the terminal frame (finish reason ["stop"]) directly
    followed by the end sentinel, and no earlier frame has a finish reason. *)
Definition one_terminal_before_done (items : list Wire) : Prop :=
  exists pre, map shape_of items = pre ++ [Terminal (JStr "stop"); DoneMark]
              /\ Forall (fun sh => is_terminal sh = false) pre.

Definition is_protected_events (sh : Shape) : bool :=
  match sh with Reasoning m => String.prefix "🛡️ Protected " m | _ => false end.

Definition is_protected_stream (sh : Shape) : bool :=
  match sh with Reasoning m => String.prefix "🔒 Protected " m | _ => false end.

Definition is_restoring (sh : Shape) : bool :=
  match sh with
  | Reasoning m => bool_decide (m = "🔓 Restoring protected data...")
  | _ => false
  end.

(** No Protected frame and no Restoring frame when nothing was found. *)
Definition quiet_when_nothing_found (count : Z) (shapes : list Shape) : Prop :=
  count = 0%Z ->
  existsb is_protected_stream shapes = false /\ existsb is_restoring shapes = false.

(** After the Waiting frame come exactly one status frame and the terminal
    frame, and the stream has no Restoring frame and no content frame. *)
Definition error_sequence_after_waiting (waiting : string) (shapes : list Shape) : Prop :=
  (exists pre m, shapes = pre ++ [Reasoning waiting; Reasoning m;
                                   Terminal (JStr "stop"); DoneMark])
  /\ existsb is_restoring shapes = false
  /\ existsb is_content shapes = false.

(** The response is an error response: a status of 400 or more was written. *)
Definition answered_with_error (w : ResponseWriter) : bool :=
  match status w with
  | Some code => (400 <=? code)%Z
  | None => false
  end.

(** Nothing was streamed and the request was still served: no frame, no
    sentinel, no error status. *)
Definition served_without_stream (w : ResponseWriter) : Prop :=
  frames (body w) = [] /\ ~ In SSE_DONE (body w) /\ answered_with_error w = false.

(** *** Basic facts about handler steps and byte slices *)

Lemma bind_Returned {St A B : Type} (m : Go St A) (k : A -> Go St B) s a s' :
  m s = (Returned a, s') -> bind m k s = k a s'.
Proof. intros H. unfold bind. rewrite H. reflexivity. Qed.

Lemma bind_Panicked {St A B : Type} (m : Go St A) (k : A -> Go St B) s s' :
  m s = (Panicked, s') -> bind m k s = (Panicked, s').
Proof. intros H. unfold bind. rewrite H. reflexivity. Qed.

(** A step only appends to the body. *)
Definition appends {Oracle A : Type} (m : Go (ResponseWriter * Oracle) A) : Prop :=
  forall s, exists items, body (fst (snd (m s))) = body (fst s) ++ items.

Lemma appends_ret {Oracle A : Type} (a : A) : appends (Oracle := Oracle) (ret a).
Proof. intros s. exists []. simpl. now rewrite app_nil_r. Qed.

Lemma appends_panic {Oracle A : Type} : appends (Oracle := Oracle) (A := A) panic.
Proof. intros s. exists []. simpl. now rewrite app_nil_r. Qed.

Lemma appends_bind {Oracle A B : Type} (m : Go (ResponseWriter * Oracle) A)
    (k : A -> Go (ResponseWriter * Oracle) B) :
  appends m -> (forall a, appends (k a)) -> appends (bind m k).
Proof.
  intros Hm Hk s. unfold bind. destruct (Hm s) as [items Hitems].
  destruct (m s) as [[a|] s1]; simpl in *.
  - destruct (Hk a s1) as [items' Hitems']. exists (items ++ items').
    rewrite Hitems', Hitems. now rewrite app_assoc.
  - exists items. exact Hitems.
Qed.

Lemma appends_ask {Oracle A : Type} (f : Oracle -> A * Oracle) : appends (ask f).
Proof.
  intros s. exists []. unfold ask. destruct (f (snd s)). simpl. now rewrite app_nil_r.
Qed.

Lemma appends_Fprint {Oracle : Type} (item : Wire) :
  appends (Oracle := Oracle) (on_writer (Fprint item)).
Proof. intros s. exists [item]. reflexivity. Qed.

Lemma appends_Flush {Oracle : Type} : appends (Oracle := Oracle) (on_writer Flush).
Proof. intros s. exists []. simpl. now rewrite app_nil_r. Qed.

Lemma frames_app (l1 l2 : list Wire) : frames (l1 ++ l2) = frames l1 ++ frames l2.
Proof. unfold frames. apply omap_app. Qed.

Lemma substring_nil (i n : nat) : substring i n "" = "".
Proof. destruct i, n; reflexivity. Qed.

(** Two adjacent byte slices make one. *)
Lemma substring_adjacent (s : string) :
  forall i n m, substring i n s +:+ substring (i + n) m s = substring i (n + m) s.
Proof.
  induction s as [|c s IH]; intros i n m.
  - rewrite !substring_nil. reflexivity.
  - destruct i as [|i]; simpl.
    + destruct n as [|n]; simpl; [reflexivity|].
      rewrite <- (IH 0 n m). reflexivity.
    + apply IH.
Qed.

Lemma substring_whole (s : string) : substring 0 (String.length s) s = s.
Proof. induction s as [|c s IH]; simpl; [reflexivity | now rewrite IH]. Qed.

Lemma substring_past_end (s : string) :
  forall i n, String.length s <= i -> substring i n s = "".
Proof.
  induction s as [|c s IH]; intros i n Hle.
  - apply substring_nil.
  - destruct i as [|i]; simpl in *; [lia | apply IH; lia].
Qed.

Lemma append_cons (c : ascii) (s t : string) : String c s +:+ t = String c (s +:+ t).
Proof. reflexivity. Qed.

Lemma append_nil_r (s : string) : s +:+ "" = s.
Proof. induction s as [|c s IH]; [reflexivity | now rewrite append_cons, IH]. Qed.

Lemma append_assoc (s t u : string) : (s +:+ t) +:+ u = s +:+ t +:+ u.
Proof. induction s as [|c s IH]; [reflexivity | now rewrite !append_cons, IH]. Qed.

Lemma concat_cons (a : string) (l : list string) :
  String.concat "" (a :: l) = a +:+ String.concat "" l.
Proof. destruct l; [symmetry; apply append_nil_r | reflexivity]. Qed.

Lemma concat_app (l1 l2 : list string) :
  String.concat "" (l1 ++ l2) = String.concat "" l1 +:+ String.concat "" l2.
Proof.
  induction l1 as [|a l1 IH]; [reflexivity|].
  change ((a :: l1) ++ l2) with (a :: (l1 ++ l2)).
  rewrite !concat_cons, IH. symmetry. apply append_assoc.
Qed.

(** One step of a 50-byte slicing loop: the slice at [i] followed by the rest
    from [i + 50] is the rest from [i]. *)
Lemma slice_then_rest (content : string) (i : nat) :
  i < String.length content ->
  substring i (Nat.min (i + 50) (String.length content) - i) content
    +:+ substring (i + 50) (String.length content - (i + 50)) content
  = substring i (String.length content - i) content.
Proof.
  intros Hlt. destruct (decide (i + 50 <= String.length content)) as [Hin|Hout].
  - replace (Nat.min (i + 50) (String.length content) - i) with 50 by lia.
    replace (String.length content - i)
      with (50 + (String.length content - (i + 50))) by lia.
    apply substring_adjacent.
  - rewrite (substring_past_end content (i + 50)) by lia.
    replace (Nat.min (i + 50) (String.length content) - i)
      with (String.length content - i) by lia.
    apply append_nil_r.
Qed.

Lemma prefix_append (s t : string) : String.prefix s (s +:+ t) = true.
Proof.
  induction s as [|c s IH]; [destruct t; reflexivity|].
  rewrite append_cons. simpl. destruct (ascii_dec c c); [exact IH | congruence].
Qed.

Lemma length_substring (s : string) :
  forall i n, i + n <= String.length s -> String.length (substring i n s) = n.
Proof.
  induction s as [|c s IH]; intros i n Hle; simpl in Hle.
  - assert (i = 0) as -> by lia. assert (n = 0) as -> by lia. reflexivity.
  - destruct i as [|i]; simpl.
    + destruct n as [|n]; simpl; [reflexivity|]. f_equal. apply (IH 0). lia.
    + apply IH. lia.
Qed.

(** *** Facts about [json_string] *)

Lemma rune_size_app (s t : string) (n : nat) :
  rune_size s = Some n -> rune_size (s +:+ t) = Some n.
Proof.
  destruct s as [|b0 s]; [discriminate|]. rewrite append_cons. unfold rune_size.
  destruct (byte_in 0 127 b0); [auto|].
  destruct (byte_in 194 223 b0).
  { destruct s as [|b1 s]; [discriminate|]. rewrite append_cons. auto. }
  destruct (byte_in 224 239 b0).
  { destruct s as [|b1 [|b2 s]]; try discriminate. rewrite !append_cons. auto. }
  destruct (byte_in 240 244 b0); [|intros H; discriminate H].
  destruct s as [|b1 [|b2 [|b3 s]]]; try discriminate. rewrite !append_cons. auto.
Qed.

Lemma json_string_from_start (b : ascii) (s : string) :
  json_string_from 0 (String b s)
  = match rune_size (String b s) with
    | Some n => String b (json_string_from (n - 1) s)
    | None => replacement_character +:+ json_string_from 0 s
    end.
Proof. reflexivity. Qed.

Lemma utf8_valid_from_start (b : ascii) (s : string) :
  utf8_valid_from 0 (String b s)
  = match rune_size (String b s) with
    | Some n => utf8_valid_from (n - 1) s
    | None => false
    end.
Proof. reflexivity. Qed.

Lemma json_string_from_valid_app (s t : string) :
  forall inside, utf8_valid_from inside s = true ->
    json_string_from inside (s +:+ t) = s +:+ json_string_from 0 t.
Proof.
  induction s as [|b s IH]; intros inside Hvalid.
  - destruct inside; [reflexivity | discriminate].
  - rewrite append_cons. destruct inside as [|k].
    + rewrite utf8_valid_from_start in Hvalid.
      destruct (rune_size (String b s)) as [n|] eqn:Hn; [|discriminate].
      rewrite json_string_from_start, <- append_cons, (rune_size_app _ t n Hn).
      rewrite append_cons. now rewrite IH.
    + cbn [utf8_valid_from json_string_from] in *. now rewrite IH.
Qed.

(** A valid string is written as it is. *)
Lemma json_string_valid (s : string) : utf8_ValidString s = true -> json_string s = s.
Proof.
  intros Hvalid. unfold json_string.
  rewrite <- (append_nil_r s) at 1.
  rewrite (json_string_from_valid_app s "" 0 Hvalid). apply append_nil_r.
Qed.

Lemma map_json_string_valid (l : list string) :
  Forall (fun s => utf8_ValidString s = true) l -> map json_string l = l.
Proof.
  induction 1 as [|s l Hs _ IH]; [reflexivity|].
  cbn [map]. rewrite json_string_valid by exact Hs. now rewrite IH.
Qed.

Lemma all_ascii_valid (s : string) : all_ascii s = true -> utf8_ValidString s = true.
Proof.
  unfold utf8_ValidString. induction s as [|b s IH]; [reflexivity|]. simpl.
  intros Hs. apply andb_true_iff in Hs as [Hb Hs]. rewrite Hb. simpl. auto.
Qed.

Lemma all_ascii_app (s t : string) : all_ascii (s +:+ t) = all_ascii s && all_ascii t.
Proof.
  induction s as [|b s IH]; [reflexivity|]. rewrite append_cons. simpl.
  now rewrite IH, andb_assoc.
Qed.

Lemma all_ascii_string_of_uint (d : Decimal.uint) :
  all_ascii (NilEmpty.string_of_uint d) = true.
Proof. induction d; simpl; auto. Qed.

Lemma all_ascii_itoa (z : Z) : all_ascii (itoa z) = true.
Proof.
  unfold itoa, NilZero.string_of_int, NilZero.string_of_uint.
  destruct (Z.to_int z) as [d|d]; [destruct d | destruct d]; simpl;
    auto using all_ascii_string_of_uint.
Qed.

Lemma utf8_valid_from_app (s t : string) :
  forall inside, utf8_valid_from inside s = true ->
    utf8_valid_from inside (s +:+ t) = utf8_valid_from 0 t.
Proof.
  induction s as [|b s IH]; intros inside Hvalid.
  - destruct inside; [reflexivity | discriminate].
  - rewrite append_cons. destruct inside as [|k].
    + rewrite utf8_valid_from_start in Hvalid.
      destruct (rune_size (String b s)) as [n|] eqn:Hn; [|discriminate].
      rewrite utf8_valid_from_start, <- append_cons, (rune_size_app _ t n Hn).
      now rewrite IH.
    + cbn [utf8_valid_from] in *. now rewrite IH.
Qed.

(** Everything written has been flushed. *)
Definition all_flushed {Oracle : Type} (s : ResponseWriter * Oracle) : Prop :=
  flushed (fst s) = length (body (fst s)).

(** A step that, started with everything flushed, stops with everything flushed. *)
Definition keeps_flushed {Oracle A : Type} (m : Go (ResponseWriter * Oracle) A) : Prop :=
  forall s, all_flushed s -> all_flushed (snd (m s)).

Lemma keeps_flushed_ret {Oracle A : Type} (a : A) : keeps_flushed (Oracle := Oracle) (ret a).
Proof. intros s Hs. exact Hs. Qed.

Lemma keeps_flushed_panic {Oracle A : Type} :
  keeps_flushed (Oracle := Oracle) (A := A) panic.
Proof. intros s Hs. exact Hs. Qed.

Lemma keeps_flushed_bind {Oracle A B : Type} (m : Go (ResponseWriter * Oracle) A)
    (k : A -> Go (ResponseWriter * Oracle) B) :
  keeps_flushed m -> (forall a, keeps_flushed (k a)) -> keeps_flushed (bind m k).
Proof.
  intros Hm Hk s Hs. unfold bind. specialize (Hm s Hs).
  destruct (m s) as [[a|] s1]; simpl in *; [apply Hk, Hm | exact Hm].
Qed.

Lemma keeps_flushed_Header_Set {Oracle : Type} (k v : string) :
  keeps_flushed (Oracle := Oracle) (on_writer (Header_Set k v)).
Proof. intros s Hs. exact Hs. Qed.

(** ** The reasoning-events guide: helpers and chat handler flow *)

Module EventsGuide.

Record Response : Type := { Content : string }.

(** [content[i:end]] with [end := min(i+50, len(content))], a byte slice. *)
Definition slice (content : string) (i : nat) : string :=
  substring i (Nat.min (i + 50) (String.length content) - i) content.

(** The slices the loop [for i := 0; i < len(content); i += 50] takes from
    offset [i] on, in order. *)
Definition slices_from (content : string) (i : nat) : list string :=
  map (fun k => slice content (i + 50 * k))
    (seq 0 ((String.length content - i + 49) / 50)).

Definition slices (content : string) : list string := slices_from content 0.

Section Handler.

(** What the guide leaves to the surrounding program.  [generateChunkID] and
    [time.Now().Unix()] read the environment, so they step an oracle;
    [CallCompletion] returns a response pointer (possibly nil) and an error. *)
Variable Oracle : Type.
Variable generateChunkID : Oracle -> string * Oracle.
Variable time_Now_Unix : Oracle -> Z * Oracle.
Variables Request PiiMap error : Type.
Variable obfuscate : Request -> Request * PiiMap.
Variable len : PiiMap -> nat.
Variable CallCompletion : Request -> option Response * option error.
Variable deobfuscate : string -> PiiMap -> string.

Definition St : Type := ResponseWriter * Oracle.

(** The [map[string]interface{}] literal of the helpers. *)
Definition chunk (id : string) (created : Z) (delta : Json string)
    (finish : Json string) : Json string :=
  JObj [ ("id", JStr id);
         ("object", JStr "chat.completion.chunk");
         ("created", JNum created);
         ("model", JStr "ghostllm");
         ("choices", JArr [ JObj [ ("index", JNum 0);
                                   ("delta", delta);
                                   ("finish_reason", finish) ] ]) ].

(** [data, _ := json.Marshal(chunk); fmt.Fprintf(w, "data: %s\n\n", data)] *)
Definition Fprintf_data (chunk : Json string) : Go St unit :=
  on_writer (Fprint (SSE (json_Marshal chunk))).

Definition sendReasoningEvent (message : string) : Go St unit :=
  do id <- ask generateChunkID in
  do created <- ask time_Now_Unix in
  Fprintf_data (chunk id created (JObj [("reasoning_content", JStr message)]) JNull) >>
  on_writer Flush.

(** The loop [for i := 0; i < len(content); i += 50] from offset [i] on;
    [content[i:end]] is a byte slice. *)
Equations? sendContentEvent_from (content : string) (i : nat) : Go St unit
    by wf (String.length content - i) lt :=
  sendContentEvent_from content i with decide (i < String.length content) := {
    | left _ =>
        let end_ := Nat.min (i + 50) (String.length content) in
        do id <- ask generateChunkID in
        do created <- ask time_Now_Unix in
        Fprintf_data (chunk id created
            (JObj [("content", JStr (substring i (end_ - i) content))]) JNull) >>
        on_writer Flush >>
        sendContentEvent_from content (i + 50)
    | right _ => ret tt }.
Proof. lia. Qed.

Definition sendContentEvent (content : string) : Go St unit :=
  sendContentEvent_from content 0.

Definition sendDoneEvent : Go St unit :=
  do id <- ask generateChunkID in
  do created <- ask time_Now_Unix in
  Fprintf_data (chunk id created (JObj []) (JStr "stop")) >>
  on_writer (Fprint SSE_DONE) >>
  on_writer Flush.

Definition msg_securing : string := "🔒 Securing your request...".
Definition msg_protected (n : nat) : string :=
  "🛡️ Protected " +:+ itoa (Z.of_nat n) +:+ " sensitive items".
Definition msg_waiting : string := "🤖 Waiting for AI response...".
Definition msg_restoring : string := "🔓 Restoring protected data...".

(** The "new code flow" of the chat handler, steps 1 to 8. *)
Definition chatHandler (request : Request) : Go St unit :=
  on_writer (Header_Set "Content-Type" "text/event-stream") >>
  on_writer (Header_Set "Cache-Control" "no-cache") >>
  on_writer (Header_Set "Connection" "keep-alive") >>
  (* flusher := w.(http.Flusher) *)
  (fun s => if is_Flusher (fst s) then ret tt s else panic s) >>
  sendReasoningEvent msg_securing >>
  let (obfuscatedRequest, piiMap) := obfuscate request in
  (if decide (0 < len piiMap)
   then sendReasoningEvent (msg_protected (len piiMap))
   else ret tt) >>
  sendReasoningEvent msg_waiting >>
  let (response, err) := CallCompletion obfuscatedRequest in
  sendReasoningEvent msg_restoring >>
  (* response.Content *)
  do content <- (match response with
                 | Some r => ret (Content r)
                 | None => panic
                 end) in
  let deobfuscatedContent := deobfuscate content piiMap in
  sendContentEvent deobfuscatedContent >>
  sendDoneEvent.

(** *** The frames as a client reads them *)

Lemma Marshal_chunk (id : string) (created : Z) (delta finish : Json string) :
  json_Marshal (chunk id created delta finish)
  = chunk (json_string id) created (json_Marshal delta) (json_Marshal finish).
Proof. reflexivity. Qed.

Lemma shape_of_reasoning_chunk (id : string) (created : Z) (message : string) :
  shape_of (SSE (json_Marshal
                   (chunk id created (JObj [("reasoning_content", JStr message)]) JNull)))
  = Reasoning (json_string message).
Proof. reflexivity. Qed.

Lemma shape_of_content_chunk (id : string) (created : Z) (fragment : string) :
  shape_of (SSE (json_Marshal (chunk id created (JObj [("content", JStr fragment)]) JNull)))
  = ContentFrame (json_string fragment).
Proof. reflexivity. Qed.

Lemma shape_of_done_chunk (id : string) (created : Z) :
  shape_of (SSE (json_Marshal (chunk id created (JObj []) (JStr "stop"))))
  = Terminal (JStr "stop").
Proof. reflexivity. Qed.

(** The status messages are valid UTF-8: they are written as they are. *)
Lemma json_string_msg_protected (n : nat) :
  json_string (msg_protected n) = msg_protected n.
Proof.
  apply json_string_valid. unfold utf8_ValidString, msg_protected.
  rewrite utf8_valid_from_app by reflexivity.
  apply all_ascii_valid. rewrite all_ascii_app, all_ascii_itoa. reflexivity.
Qed.

(** *** The slices of the loop *)

Lemma slices_from_done (content : string) (i : nat) :
  String.length content <= i -> slices_from content i = [].
Proof.
  intros Hle. unfold slices_from.
  replace (String.length content - i) with 0 by lia. reflexivity.
Qed.

Lemma slices_from_step (content : string) (i : nat) :
  i < String.length content ->
  slices_from content i = slice content i :: slices_from content (i + 50).
Proof.
  intros Hlt. unfold slices_from.
  assert ((String.length content - i + 49) / 50
          = S ((String.length content - (i + 50) + 49) / 50)) as ->.
  { destruct (decide (i + 50 <= String.length content)) as [Hin|Hout].
    - replace (String.length content - i + 49)
        with ((String.length content - (i + 50) + 49) + 1 * 50) by lia.
      rewrite Nat.div_add by lia. lia.
    - replace (String.length content - (i + 50)) with 0 by lia.
      change ((0 + 49) / 50) with 0. symmetry.
      apply (Nat.div_unique _ 50 1 (String.length content - i - 1)); lia. }
  cbn [seq map]. rewrite Nat.mul_0_r, Nat.add_0_r. f_equal.
  rewrite <- seq_shift, map_map. apply map_ext. intros k. f_equal. lia.
Qed.

(** The slices from offset [i] on, put together, are the content from [i] on. *)
Lemma concat_slices_from (content : string) :
  forall n i, String.length content - i <= n ->
    String.concat "" (slices_from content i)
    = substring i (String.length content - i) content.
Proof.
  induction n as [|n IH]; intros i Hn;
    destruct (decide (i < String.length content)) as [Hlt|Hge].
  1: lia.
  1, 3: rewrite slices_from_done, substring_past_end by lia; reflexivity.
  rewrite slices_from_step by exact Hlt.
  rewrite concat_cons, IH by lia. apply slice_then_rest. exact Hlt.
Qed.

Lemma concat_slices (content : string) : String.concat "" (slices content) = content.
Proof.
  unfold slices. rewrite (concat_slices_from content (String.length content)) by lia.
  rewrite Nat.sub_0_r. apply substring_whole.
Qed.

Lemma slices_from_bounds (content : string) :
  forall n i, String.length content - i <= n ->
    Forall (fun sl => 0 < String.length sl <= 50) (slices_from content i).
Proof.
  induction n as [|n IH]; intros i Hn;
    destruct (decide (i < String.length content)) as [Hlt|Hge].
  1: lia.
  1, 3: rewrite slices_from_done by lia; constructor.
  rewrite slices_from_step by exact Hlt. constructor; [|apply IH; lia].
  unfold slice. rewrite length_substring by lia. lia.
Qed.

(** *** What each helper puts on the wire *)

Lemma sendReasoningEvent_run (message : string) (w : ResponseWriter) (o : Oracle) :
  sendReasoningEvent message (w, o)
  = (Returned tt,
     (Flush (Fprint (SSE (json_Marshal
                            (chunk (fst (generateChunkID o))
                               (fst (time_Now_Unix (snd (generateChunkID o))))
                               (JObj [("reasoning_content", JStr message)]) JNull))) w),
      snd (time_Now_Unix (snd (generateChunkID o))))).
Proof.
  unfold sendReasoningEvent, Fprintf_data, bind, ask, on_writer; cbn [fst snd].
  destruct (generateChunkID o) as [id o1]; cbn [fst snd].
  destruct (time_Now_Unix o1) as [created o2]; reflexivity.
Qed.

Lemma sendReasoningEvent_trace (message : string) (s : St) :
  exists s', sendReasoningEvent message s = (Returned tt, s')
    /\ is_Flusher (fst s') = is_Flusher (fst s)
    /\ map shape_of (body (fst s'))
       = map shape_of (body (fst s)) ++ [Reasoning (json_string message)].
Proof.
  destruct s as [w o]. rewrite sendReasoningEvent_run.
  eexists; split; [reflexivity|]; cbn [fst snd]; split; [reflexivity|].
  cbn [body Flush Fprint]. rewrite map_app. reflexivity.
Qed.

Lemma sendDoneEvent_trace (s : St) :
  exists s', sendDoneEvent s = (Returned tt, s')
    /\ is_Flusher (fst s') = is_Flusher (fst s)
    /\ map shape_of (body (fst s'))
       = map shape_of (body (fst s)) ++ [Terminal (JStr "stop"); DoneMark].
Proof.
  unfold sendDoneEvent, Fprintf_data, bind, ask, on_writer; cbn [fst snd].
  destruct (generateChunkID (snd s)) as [id o1]; cbn [fst snd].
  destruct (time_Now_Unix o1) as [created o2]; cbn [fst snd].
  eexists; split; [reflexivity|]; cbn [fst snd]; split; [reflexivity|].
  cbn [body Flush Fprint]. rewrite !map_app, <- app_assoc. reflexivity.
Qed.

Lemma sendContentEvent_from_step (content : string) (i : nat) :
  sendContentEvent_from content i =
  if decide (i < String.length content)
  then
    do id <- ask generateChunkID in
    do created <- ask time_Now_Unix in
    Fprintf_data (chunk id created (JObj [("content", JStr (slice content i))]) JNull) >>
    on_writer Flush >>
    sendContentEvent_from content (i + 50)
  else ret tt.
Proof.
  rewrite sendContentEvent_from_equation_1.
  destruct (decide (i < String.length content)); reflexivity.
Qed.

(** One turn of the loop: a frame with the slice at [i], flushed. *)
Lemma sendContentEvent_from_turn (content : string) (i : nat) (w : ResponseWriter)
    (o : Oracle) :
  i < String.length content ->
  sendContentEvent_from content i (w, o)
  = sendContentEvent_from content (i + 50)
      (Flush (Fprint (SSE (json_Marshal
                             (chunk (fst (generateChunkID o))
                                (fst (time_Now_Unix (snd (generateChunkID o))))
                                (JObj [("content", JStr (slice content i))]) JNull))) w),
       snd (time_Now_Unix (snd (generateChunkID o)))).
Proof.
  intros Hlt. rewrite sendContentEvent_from_step.
  destruct (decide (i < String.length content)); [|contradiction].
  unfold Fprintf_data, bind at 1, ask at 1; cbn [fst snd].
  destruct (generateChunkID o) as [id o1]; cbn [fst snd].
  unfold bind at 1, ask at 1; cbn [fst snd].
  destruct (time_Now_Unix o1) as [created o2]; cbn [fst snd].
  unfold bind at 1, on_writer at 1; cbn [fst snd].
  unfold bind at 1, on_writer at 1; cbn [fst snd]. reflexivity.
Qed.

(** The loop returns, and its frames carry the slices from offset [i] on, each
    as [json.Marshal] writes it. *)
Lemma sendContentEvent_from_trace (content : string) :
  forall (n i : nat) (s : St),
    String.length content - i <= n ->
    exists s',
      sendContentEvent_from content i s = (Returned tt, s')
      /\ is_Flusher (fst s') = is_Flusher (fst s)
      /\ map shape_of (body (fst s'))
         = map shape_of (body (fst s))
           ++ map ContentFrame (map json_string (slices_from content i)).
Proof.
  induction n as [|n IH]; intros i [w o] Hn;
    destruct (decide (i < String.length content)) as [Hlt|Hge].
  1: lia.
  1, 3: (exists (w, o); rewrite sendContentEvent_from_step;
         destruct (decide (i < String.length content)); [lia|];
         rewrite slices_from_done by lia; cbn [map]; rewrite app_nil_r; auto).
  rewrite sendContentEvent_from_turn by exact Hlt.
  match goal with |- context [sendContentEvent_from content (i + 50) ?s1] =>
    destruct (IH (i + 50) s1 ltac:(lia)) as (s' & Hrun & Hfl & Hbody)
  end.
  exists s'. split; [exact Hrun|]. split; [rewrite Hfl; reflexivity|].
  rewrite (slices_from_step content i Hlt), Hbody.
  cbn [fst body Flush Fprint map]. rewrite map_app, <- app_assoc.
  cbn [map app]. now rewrite shape_of_content_chunk.
Qed.

(** *** The whole flow, as a sequence of phases *)

Definition piiMap_of (request : Request) : PiiMap := snd (obfuscate request).

Definition response_of (request : Request) : option Response :=
  fst (CallCompletion (fst (obfuscate request))).

Definition err_of (request : Request) : option error :=
  snd (CallCompletion (fst (obfuscate request))).

Definition protected_phase (request : Request) : list Shape :=
  if decide (0 < len (piiMap_of request))
  then [Reasoning (msg_protected (len (piiMap_of request)))]
  else [].

(** The content frames of a response: the slices of the de-obfuscated
    content, each as [json.Marshal] writes it. *)
Definition content_frames (request : Request) (r : Response) : list Shape :=
  map ContentFrame
    (map json_string (slices (deobfuscate (Content r) (piiMap_of request)))).

(** With a flusher the flow writes the phases below and returns when the
    upstream call handed back a response; with a nil response it panics at
    [response.Content], after the Restoring frame.  The error the call
    returned plays no part. *)
Lemma chatHandler_trace (request : Request) (o : Oracle) :
  exists s',
    chatHandler request (fresh_writer true, o)
    = (match response_of request with
       | Some _ => Returned tt
       | None => Panicked
       end, s')
    /\ map shape_of (body (fst s'))
       = [Reasoning msg_securing] ++ protected_phase request
         ++ [Reasoning msg_waiting; Reasoning msg_restoring]
         ++ match response_of request with
            | Some r => content_frames request r ++ [Terminal (JStr "stop"); DoneMark]
            | None => []
            end.
Proof.
  unfold chatHandler, protected_phase, content_frames, response_of, piiMap_of.
  do 4 (unfold bind at 1; cbn [on_writer fst snd is_Flusher fresh_writer Header_Set ret]).
  match goal with |- context [bind (sendReasoningEvent msg_securing) _ ?s0] =>
    destruct (sendReasoningEvent_trace msg_securing s0) as (s1 & H1 & F1 & B1)
  end.
  rewrite (bind_Returned _ _ _ _ _ H1). cbn [fst body map app] in B1. clear H1.
  destruct (obfuscate request) as [obfuscatedRequest piiMap]; cbn [fst snd].
  assert (exists s2,
    (if decide (0 < len piiMap)
     then sendReasoningEvent (msg_protected (len piiMap)) else ret tt) s1
    = (Returned tt, s2)
    /\ map shape_of (body (fst s2))
       = [Reasoning msg_securing]
         ++ (if decide (0 < len piiMap)
             then [Reasoning (msg_protected (len piiMap))] else []))
    as (s2 & H2 & B2).
  { destruct (decide (0 < len piiMap)).
    - destruct (sendReasoningEvent_trace (msg_protected (len piiMap)) s1)
        as (s2 & H2 & _ & B2).
      exists s2. split; [exact H2|]. rewrite B2, B1, json_string_msg_protected.
      reflexivity.
    - exists s1. split; [reflexivity|]. rewrite B1. reflexivity. }
  rewrite (bind_Returned _ _ _ _ _ H2). clear H2 B1 F1 s1.
  destruct (sendReasoningEvent_trace msg_waiting s2) as (s3 & H3 & _ & B3).
  rewrite (bind_Returned _ _ _ _ _ H3). clear H3.
  destruct (CallCompletion obfuscatedRequest) as [response err]; cbn [fst snd].
  destruct (sendReasoningEvent_trace msg_restoring s3) as (s4 & H4 & _ & B4).
  rewrite (bind_Returned _ _ _ _ _ H4). clear H4.
  assert (map shape_of (body (fst s4))
          = [Reasoning msg_securing]
            ++ (if decide (0 < len piiMap)
                then [Reasoning (msg_protected (len piiMap))] else [])
            ++ [Reasoning msg_waiting; Reasoning msg_restoring]) as B.
  { rewrite B4, B3, B2, <- ?app_assoc. reflexivity. }
  clear B2 B3 B4 s2 s3.
  destruct response as [r|].
  - unfold bind at 1, ret at 1.
    destruct (sendContentEvent_from_trace (deobfuscate (Content r) piiMap)
                (String.length (deobfuscate (Content r) piiMap)) 0 s4 ltac:(lia))
      as (s5 & H5 & _ & B5).
    unfold sendContentEvent. rewrite (bind_Returned _ _ _ _ _ H5).
    destruct (sendDoneEvent_trace s5) as (s6 & H6 & _ & B6).
    exists s6. split; [exact H6|].
    rewrite B6, B5, B, <- ?app_assoc. reflexivity.
  - exists s4. split; [reflexivity|]. rewrite B, <- ?app_assoc. reflexivity.
Qed.

(** Without a flusher the type assertion panics before anything is written. *)
Lemma chatHandler_without_Flusher (request : Request) (o : Oracle) :
  exists s', chatHandler request (fresh_writer false, o) = (Panicked, s')
             /\ body (fst s') = [] /\ snd s' = o.
Proof. eexists. split; [reflexivity|]. split; reflexivity. Qed.

(** *** Which id a frame carries *)

Lemma appends_sendReasoningEvent (message : string) : appends (sendReasoningEvent message).
Proof.
  unfold sendReasoningEvent, Fprintf_data.
  repeat (apply appends_bind; [|intros ?]);
    auto using appends_ask, appends_Fprint, appends_Flush.
Qed.

Lemma appends_sendDoneEvent : appends sendDoneEvent.
Proof.
  unfold sendDoneEvent, Fprintf_data.
  repeat (apply appends_bind; [|intros ?]);
    auto using appends_ask, appends_Fprint, appends_Flush.
Qed.

Lemma appends_sendContentEvent_from (content : string) :
  forall n i, String.length content - i <= n -> appends (sendContentEvent_from content i).
Proof.
  induction n as [|n IH]; intros i Hn; rewrite sendContentEvent_from_step;
    destruct (decide (i < String.length content)); try apply appends_ret; [lia|].
  unfold Fprintf_data.
  repeat (apply appends_bind; [|intros ?]);
    auto using appends_ask, appends_Fprint, appends_Flush.
  apply IH. lia.
Qed.

(** The part of the flow after the Waiting frame. *)
Lemma appends_after_waiting (response : option Response) (piiMap : PiiMap) :
  appends (sendReasoningEvent msg_restoring >>
           do content <- (match response with
                          | Some r => ret (Content r)
                          | None => panic
                          end) in
           sendContentEvent (deobfuscate content piiMap) >> sendDoneEvent).
Proof.
  apply appends_bind; [apply appends_sendReasoningEvent | intros _].
  apply appends_bind; [destruct response; [apply appends_ret | apply appends_panic] |].
  intros content. apply appends_bind; [|intros _; apply appends_sendDoneEvent].
  apply (appends_sendContentEvent_from _ (String.length (deobfuscate content piiMap))). lia.
Qed.

(** The first frame carries the id of the first [generateChunkID] call, the
    second frame the id of the second call. *)
Lemma chatHandler_first_two_ids (request : Request) (o : Oracle) :
  exists rest,
    map frame_id (frames (body (fst (snd (chatHandler request (fresh_writer true, o))))))
    = Some (JStr (json_string (fst (generateChunkID o))))
      :: Some (JStr (json_string
                       (fst (generateChunkID
                               (snd (time_Now_Unix (snd (generateChunkID o))))))))
      :: rest.
Proof.
  unfold chatHandler.
  do 4 (unfold bind at 1; cbn [on_writer fst snd is_Flusher fresh_writer Header_Set ret]).
  rewrite (bind_Returned _ _ _ _ _ (sendReasoningEvent_run _ _ _)). cbv beta.
  set (o2 := snd (time_Now_Unix (snd (generateChunkID o)))).
  destruct (obfuscate request) as [obfuscatedRequest piiMap].
  destruct (CallCompletion obfuscatedRequest) as [response err] eqn:Hcall.
  assert (forall (w2 : ResponseWriter) (message : string) (k : Go St unit),
            frames (body w2) <> [] -> appends k ->
            exists rest,
              map frame_id (frames (body (fst (snd ((sendReasoningEvent message >> k) (w2, o2))))))
              = map frame_id (frames (body w2))
                ++ Some (JStr (json_string (fst (generateChunkID o2)))) :: rest) as Hsecond.
  { intros w2 message k _ Hk.
    rewrite (bind_Returned _ _ _ _ _ (sendReasoningEvent_run _ _ _)). cbv beta.
    match goal with |- context [k ?s3] => destruct (Hk s3) as [items Hitems] end.
    unfold St in *. rewrite Hitems. cbn [fst body Flush Fprint].
    rewrite !frames_app, !map_app, <- app_assoc. eexists. reflexivity. }
  destruct (decide (0 < len piiMap)).
  - match goal with |- context [(sendReasoningEvent ?m >> ?k) (?w2, o2)] =>
      destruct (Hsecond w2 m k) as [rest Hrest]
    end.
    + discriminate.
    + apply appends_bind; [apply appends_sendReasoningEvent | intros _].
      apply appends_after_waiting.
    + exists rest. exact Hrest.
  - unfold bind at 1, ret at 1.
    match goal with |- context [(sendReasoningEvent ?m >> ?k) (?w2, o2)] =>
      destruct (Hsecond w2 m k) as [rest Hrest]
    end.
    + discriminate.
    + apply appends_after_waiting.
    + exists rest. exact Hrest.
Qed.

(** So a stream has one id only if the first two ids [generateChunkID]
    returned are written as the same string. *)
Lemma chatHandler_one_id_only_if_generator_repeats (request : Request) (o : Oracle) :
  one_id (body (fst (snd (chatHandler request (fresh_writer true, o))))) ->
  json_string (fst (generateChunkID o))
  = json_string (fst (generateChunkID (snd (time_Now_Unix (snd (generateChunkID o)))))).
Proof.
  intros [id Hall].
  destruct (chatHandler_first_two_ids request o) as [rest Hids].
  destruct (frames _) as [|f1 [|f2 l]]; try discriminate Hids.
  injection Hids as H1 H2 _.
  inversion Hall as [|? ? Hf1 Hrest]; subst.
  inversion Hrest as [|? ? Hf2 _]; subst.
  congruence.
Qed.

(** *** Invariants of the flow *)

Lemma existsb_map_ContentFrame (p : Shape -> bool) (frags : list string) :
  (forall c, p (ContentFrame c) = false) -> existsb p (map ContentFrame frags) = false.
Proof. intros Hp. induction frags as [|c l IH]; simpl; [reflexivity | now rewrite Hp]. Qed.

Lemma msg_protected_is_protected_events (n : nat) :
  is_protected_events (Reasoning (msg_protected n)) = true.
Proof. apply prefix_append. Qed.

(** C3, as amended.  Whenever the chat handler built on [sendReasoningEvent],
    [sendContentEvent] and [sendDoneEvent] returns, its stream ends with the
    terminal frame (finish reason "stop") directly followed by the end
    sentinel, and no earlier frame has a non-null finish reason. *)
Theorem chatHandler_one_terminal_before_done
    (request : Request) (flusher : bool) (o : Oracle) (s' : St) :
  chatHandler request (fresh_writer flusher, o) = (Returned tt, s') ->
  one_terminal_before_done (body (fst s')).
Proof.
  intros Hrun. destruct flusher.
  - destruct (chatHandler_trace request o) as (s1 & Hrun' & Hbody).
    rewrite Hrun in Hrun'.
    destruct (response_of request) as [r|]; [|discriminate Hrun'].
    injection Hrun' as <-.
    exists ([Reasoning msg_securing] ++ protected_phase request
            ++ [Reasoning msg_waiting; Reasoning msg_restoring]
            ++ content_frames request r).
    split.
    + rewrite Hbody, <- !app_assoc. reflexivity.
    + repeat (apply Forall_app; split); repeat constructor.
      * unfold protected_phase. destruct (decide _); repeat constructor.
      * apply Forall_forall. intros sh Hin.
        apply list_elem_of_In, in_map_iff in Hin as (c & <- & _). reflexivity.
  - destruct (chatHandler_without_Flusher request o) as (s1 & Hrun' & _).
    rewrite Hrun in Hrun'. discriminate Hrun'.
Qed.

(** X4.  The Protected frame is sent exactly when the PII map is not empty; the
    Restoring frame is sent in every stream. *)
Lemma chatHandler_protected_iff_found (request : Request) (o : Oracle) :
  let shapes := map shape_of (body (fst (snd (chatHandler request (fresh_writer true, o))))) in
  (existsb is_protected_events shapes = true <-> 0 < len (piiMap_of request))
  /\ existsb is_restoring shapes = true.
Proof.
  cbv zeta.
  destruct (chatHandler_trace request o) as (s1 & Hrun & Hbody).
  rewrite Hrun; cbn [fst snd]. rewrite Hbody. unfold protected_phase.
  rewrite !existsb_app.
  assert (existsb is_protected_events [Reasoning msg_securing] = false) as -> by reflexivity.
  assert (existsb is_protected_events [Reasoning msg_waiting; Reasoning msg_restoring]
          = false) as -> by reflexivity.
  assert (existsb is_restoring [Reasoning msg_waiting; Reasoning msg_restoring]
          = true) as -> by reflexivity.
  split; [|now rewrite !orb_true_r].
  destruct (decide (0 < len (piiMap_of request))) as [Hpos|Hzero].
  - split; [intros _; exact Hpos | intros _].
    change (existsb is_protected_events [Reasoning (msg_protected (len (piiMap_of request)))])
      with (is_protected_events (Reasoning (msg_protected (len (piiMap_of request)))) || false).
    now rewrite msg_protected_is_protected_events.
  - split; [|intros; contradiction]. cbn [existsb orb].
    destruct (response_of request); [|discriminate].
    unfold content_frames.
    rewrite existsb_app, existsb_map_ContentFrame by reflexivity. discriminate.
Qed.

(** *** Further properties of the helpers and the flow *)

Lemma keeps_flushed_sendReasoningEvent (message : string) :
  keeps_flushed (sendReasoningEvent message).
Proof. intros [w o] _. rewrite sendReasoningEvent_run. reflexivity. Qed.

Lemma keeps_flushed_sendDoneEvent : keeps_flushed sendDoneEvent.
Proof.
  intros [w o] _. unfold sendDoneEvent, Fprintf_data, bind, ask, on_writer; cbn [fst snd].
  destruct (generateChunkID o) as [id o1]; cbn [fst snd].
  destruct (time_Now_Unix o1) as [created o2]; reflexivity.
Qed.

Lemma keeps_flushed_sendContentEvent_from (content : string) :
  forall n i, String.length content - i <= n ->
              keeps_flushed (sendContentEvent_from content i).
Proof.
  induction n as [|n IH]; intros i Hn;
    destruct (decide (i < String.length content)) as [Hlt|Hge].
  1: lia.
  1, 3: (rewrite sendContentEvent_from_step;
         destruct (decide (i < String.length content)); [lia | apply keeps_flushed_ret]).
  intros [w o] _. rewrite sendContentEvent_from_turn by exact Hlt.
  apply IH; [lia | reflexivity].
Qed.

(** X5.  Whenever the chat handler stops, returned or panicked, everything
    it wrote has been flushed to the client: each helper ends in
    [flusher.Flush()]. *)
Theorem chatHandler_leaves_nothing_unflushed
    (request : Request) (flusher : bool) (o : Oracle) :
  let w := fst (snd (chatHandler request (fresh_writer flusher, o))) in
  flushed w = length (body w).
Proof.
  cbv zeta.
  assert (keeps_flushed (chatHandler request)) as Hkeeps.
  { unfold chatHandler.
    repeat (apply keeps_flushed_bind; [apply keeps_flushed_Header_Set | intros _]).
    apply keeps_flushed_bind.
    { intros s Hs. destruct (is_Flusher (fst s)); exact Hs. }
    intros _. apply keeps_flushed_bind; [apply keeps_flushed_sendReasoningEvent | intros _].
    destruct (obfuscate request) as [obfuscatedRequest piiMap].
    apply keeps_flushed_bind.
    { destruct (decide (0 < len piiMap));
        [apply keeps_flushed_sendReasoningEvent | apply keeps_flushed_ret]. }
    intros _. apply keeps_flushed_bind; [apply keeps_flushed_sendReasoningEvent | intros _].
    destruct (CallCompletion obfuscatedRequest) as [response err].
    apply keeps_flushed_bind; [apply keeps_flushed_sendReasoningEvent | intros _].
    apply keeps_flushed_bind.
    { destruct response; [apply keeps_flushed_ret | apply keeps_flushed_panic]. }
    intros content. apply keeps_flushed_bind; [|intros _; apply keeps_flushed_sendDoneEvent].
    apply (keeps_flushed_sendContentEvent_from _
             (String.length (deobfuscate content piiMap))). lia. }
  apply (Hkeeps (fresh_writer flusher, o)). reflexivity.
Qed.

(** What [sendContentEvent] writes: one frame per slice, each slice as
    [json.Marshal] writes it. *)
Lemma sendContentEvent_trace (content : string) (o : Oracle) :
  exists s',
    sendContentEvent content (fresh_writer true, o) = (Returned tt, s')
    /\ map shape_of (body (fst s'))
       = map ContentFrame (map json_string (slices content)).
Proof.
  destruct (sendContentEvent_from_trace content (String.length content) 0
              (fresh_writer true, o) ltac:(lia)) as (s' & Hrun & _ & Hbody).
  exists s'. split; [exact Hrun | exact Hbody].
Qed.

(** X1.  When every slice of 50 bytes the loop takes is valid UTF-8 (as for
    ASCII content, or when no character straddles a multiple of 50),
    [sendContentEvent] returns and the content frames it writes, put
    together, are the content.  A slice that is not valid is not sent as it
    is: [json.Marshal] replaces each byte outside a character by U+FFFD. *)
Lemma sendContentEvent_fragments_concat (content : string) (o : Oracle) :
  Forall (fun sl => utf8_ValidString sl = true) (slices content) ->
  exists s' frags,
    sendContentEvent content (fresh_writer true, o) = (Returned tt, s')
    /\ map shape_of (body (fst s')) = map ContentFrame frags
    /\ String.concat "" frags = content.
Proof.
  intros Hvalid. destruct (sendContentEvent_trace content o) as (s' & Hrun & Hbody).
  exists s', (map json_string (slices content)).
  split; [exact Hrun|]. split; [exact Hbody|].
  rewrite map_json_string_valid by exact Hvalid. apply concat_slices.
Qed.

(** X2.  [sendContentEvent] cuts the content into slices of at most 50
    bytes, none of them empty, one per started block of 50 bytes (none for
    an empty content); the slices put together are the content, and each
    frame carries one slice as [json.Marshal] writes it. *)
Theorem sendContentEvent_fragment_bounds (content : string) (o : Oracle) :
  exists s',
    sendContentEvent content (fresh_writer true, o) = (Returned tt, s')
    /\ map shape_of (body (fst s'))
       = map ContentFrame (map json_string (slices content))
    /\ String.concat "" (slices content) = content
    /\ Forall (fun sl => 0 < String.length sl <= 50) (slices content)
    /\ length (slices content) = (String.length content + 49) / 50.
Proof.
  destruct (sendContentEvent_trace content o) as (s' & Hrun & Hbody).
  exists s'. split; [exact Hrun|]. split; [exact Hbody|].
  split; [apply concat_slices|]. split.
  - apply (slices_from_bounds content (String.length content)). lia.
  - unfold slices, slices_from. rewrite length_map, length_seq, Nat.sub_0_r. reflexivity.
Qed.

(** X3.  When the upstream call hands back a response, the handler returns
    and its stream is: Securing, Protected (if the PII map is not empty),
    Waiting, Restoring, one content frame per slice of the de-obfuscated
    content (each slice as [json.Marshal] writes it), the terminal frame,
    the sentinel. *)
Theorem chatHandler_delivers_deobfuscated_content
    (request : Request) (o : Oracle) (r : Response) :
  response_of request = Some r ->
  exists s',
    chatHandler request (fresh_writer true, o) = (Returned tt, s')
    /\ map shape_of (body (fst s'))
       = [Reasoning msg_securing] ++ protected_phase request
         ++ [Reasoning msg_waiting; Reasoning msg_restoring]
         ++ map ContentFrame
              (map json_string (slices (deobfuscate (Content r) (piiMap_of request))))
         ++ [Terminal (JStr "stop"); DoneMark]
    /\ String.concat "" (slices (deobfuscate (Content r) (piiMap_of request)))
       = deobfuscate (Content r) (piiMap_of request).
Proof.
  intros Hr.
  destruct (chatHandler_trace request o) as (s' & Hrun & Hbody).
  rewrite Hr in Hrun, Hbody.
  exists s'. split; [exact Hrun|]. split; [exact Hbody | apply concat_slices].
Qed.

(** X9.  When the writer is no [http.Flusher], the unchecked assertion
    [w.(http.Flusher)] panics: the three SSE headers are already set, but no
    frame is written, no status is set and no chunk id is generated. *)
Theorem chatHandler_panics_without_Flusher (request : Request) (o : Oracle) :
  let r := chatHandler request (fresh_writer false, o) in
  fst r = Panicked
  /\ body (fst (snd r)) = []
  /\ status (fst (snd r)) = None
  /\ header (fst (snd r)) !! "Content-Type" = Some "text/event-stream"
  /\ header (fst (snd r)) !! "Cache-Control" = Some "no-cache"
  /\ header (fst (snd r)) !! "Connection" = Some "keep-alive"
  /\ snd (snd r) = o.
Proof. cbv zeta. repeat split; reflexivity. Qed.

End Handler.

End EventsGuide.

(** ** The reasoning-stream guide: [handleChatCompletion] *)

Module StreamGuide.

Record ChatRequest (Messages : Type) : Type := {
  Messages_of : Messages;   (* request.Messages *)
  Stream : bool             (* `json:"stream"` *)
}.
Arguments Messages_of {Messages} c.
Arguments Stream {Messages} c.

Record PiiResult (Mappings : Type) : Type := {
  Count : Z;
  Mappings_of : Mappings    (* piiResult.Mappings *)
}.
Arguments Count {Mappings} p.
Arguments Mappings_of {Mappings} p.

Section Handler.

(** What the pseudocode leaves out: the id generator, PII detection, the
    obfuscated request (built in the elided "do PII detection" part), the
    upstream call and the restoration. *)
Variable Oracle : Type.
Variable generateID : Oracle -> string * Oracle.
Variables Messages Request Mappings : Type.
Variable detectPII : Messages -> PiiResult Mappings.
Variable obfuscatedRequest : ChatRequest Messages -> PiiResult Mappings -> Request.
Variable callMessenger : Request -> string.
Variable deobfuscate : string -> Mappings -> string.

Definition St : Type := ResponseWriter * Oracle.

(** [escapeJSON]: [json.Marshal(s)] without the surrounding quotes.  A frame
    is kept as the JSON value a client decodes from it, so the escaped
    content stands for the string the client reads back. *)
Definition escapeJSON (s : string) : string := json_string s.

(** The frame text built by [fmt.Sprintf], kept as the JSON value it denotes
    (the id and the fixed status messages are put in as they are and need no
    escaping). *)
Definition chunk (completionID : string) (delta : Json string) : Json string :=
  JObj [ ("id", JStr completionID);
         ("object", JStr "chat.completion.chunk");
         ("choices", JArr [ JObj [ ("index", JNum 0); ("delta", delta) ] ]) ].

Definition sendReasoning (completionID message : string) : Go St unit :=
  on_writer (Fprint (SSE (chunk completionID
                            (JObj [("reasoning_content", JStr message)])))) >>
  on_writer Flush.

Definition sendContent (completionID content : string) : Go St unit :=
  on_writer (Fprint (SSE (chunk completionID
                            (JObj [("content", JStr (escapeJSON content))])))) >>
  on_writer Flush.

Definition msg_securing : string := "🔒 Securing request...".
Definition msg_protected (n : Z) : string :=
  "🔒 Protected " +:+ itoa n +:+ " sensitive items".
Definition msg_waiting : string := "🤖 Waiting for AI response...".
Definition msg_restoring : string := "🔓 Restoring protected data...".

Definition handleChatCompletion (request : ChatRequest Messages) : Go St unit :=
  on_writer (Header_Set "Content-Type" "text/event-stream") >>
  on_writer (Header_Set "Cache-Control" "no-cache") >>
  on_writer (Header_Set "Connection" "keep-alive") >>
  (* flusher, ok := w.(http.Flusher) *)
  fun s =>
  if negb (is_Flusher (fst s))
  then on_writer (http_Error "Streaming not supported" 500) s
  else
    (do id <- ask generateID in
     let completionID := "chatcmpl-" +:+ id in
     sendReasoning completionID msg_securing >>
     let piiResult := detectPII (Messages_of request) in
     (if decide (Count piiResult > 0)%Z
      then sendReasoning completionID (msg_protected (Count piiResult))
      else ret tt) >>
     sendReasoning completionID msg_waiting >>
     let llmResponse := callMessenger (obfuscatedRequest request piiResult) in
     sendReasoning completionID msg_restoring >>
     let finalResponse := deobfuscate llmResponse (Mappings_of piiResult) in
     sendContent completionID finalResponse >>
     on_writer (Fprint SSE_DONE) >>
     on_writer Flush) s.

(** *** The whole flow, as a sequence of phases *)

Definition piiResult_of (request : ChatRequest Messages) : PiiResult Mappings :=
  detectPII (Messages_of request).

Definition finalResponse_of (request : ChatRequest Messages) : string :=
  deobfuscate (callMessenger (obfuscatedRequest request (piiResult_of request)))
    (Mappings_of (piiResult_of request)).

Definition protected_phase (request : ChatRequest Messages) : list Shape :=
  if decide (Count (piiResult_of request) > 0)%Z
  then [Reasoning (msg_protected (Count (piiResult_of request)))]
  else [].

(** With a flusher the handler returns; its body is the phase sequence below,
    and every frame carries the one [completionID]. *)
Lemma handleChatCompletion_trace (request : ChatRequest Messages) (o : Oracle) :
  exists s',
    handleChatCompletion request (fresh_writer true, o) = (Returned tt, s')
    /\ map shape_of (body (fst s'))
       = [Reasoning msg_securing] ++ protected_phase request
         ++ [Reasoning msg_waiting; Reasoning msg_restoring;
             ContentFrame (escapeJSON (finalResponse_of request)); DoneMark]
    /\ Forall (fun f => frame_id f = Some (JStr ("chatcmpl-" +:+ fst (generateID o))))
         (frames (body (fst s'))).
Proof.
  unfold handleChatCompletion, protected_phase, finalResponse_of, piiResult_of.
  unfold bind, on_writer, ask, sendReasoning, sendContent; simpl.
  destruct (generateID o) as [id o1]; simpl.
  destruct (decide (Count (detectPII (Messages_of request)) > 0)%Z); simpl;
    (eexists; split; [reflexivity|]; split; [reflexivity|]);
    simpl; repeat constructor.
Qed.

(** Without a flusher the handler answers 500 through [http.Error] and
    returns: nothing else is written and no id is generated. *)
Lemma handleChatCompletion_early_return
    (request : ChatRequest Messages) (o : Oracle) :
  handleChatCompletion request (fresh_writer false, o)
  = (Returned tt,
     (http_Error "Streaming not supported" 500
        (Header_Set "Connection" "keep-alive"
           (Header_Set "Cache-Control" "no-cache"
              (Header_Set "Content-Type" "text/event-stream" (fresh_writer false)))),
      o)).
Proof. reflexivity. Qed.

(** *** Invariants of the handler *)

Lemma msg_protected_is_protected_stream (n : Z) :
  is_protected_stream (Reasoning (msg_protected n)) = true.
Proof. apply prefix_append. Qed.

(** [sendContent] sends the content as one fragment: there is no cut. *)
Lemma sendContent_one_fragment (completionID content : string) (o : Oracle) :
  fragments (body (fst (snd (sendContent completionID content (fresh_writer true, o)))))
  = [escapeJSON content].
Proof. reflexivity. Qed.

(** Every frame of a stream carries the one [completionID]. *)
Lemma handleChatCompletion_one_id
    (request : ChatRequest Messages) (flusher : bool) (o : Oracle) :
  one_id (body (fst (snd (handleChatCompletion request (fresh_writer flusher, o))))).
Proof.
  destruct flusher.
  - destruct (handleChatCompletion_trace request o) as (s' & Hrun & _ & Hid).
    rewrite Hrun. eexists. exact Hid.
  - rewrite handleChatCompletion_early_return. exists JNull. constructor.
Qed.

(** C4, as amended.  In every stream of [handleChatCompletion] the Protected
    frame is sent exactly when the findings count is positive, and the
    Restoring frame is sent whatever the count. *)
Theorem handleChatCompletion_protected_iff_found
    (request : ChatRequest Messages) (o : Oracle) :
  let shapes :=
    map shape_of (body (fst (snd (handleChatCompletion request (fresh_writer true, o))))) in
  (existsb is_protected_stream shapes = true <-> (Count (piiResult_of request) > 0)%Z)
  /\ existsb is_restoring shapes = true.
Proof.
  cbv zeta.
  destruct (handleChatCompletion_trace request o) as (s' & Hrun & Hbody & _).
  rewrite Hrun; simpl. rewrite Hbody. unfold protected_phase.
  rewrite !existsb_app.
  assert (existsb is_protected_stream [Reasoning msg_securing] = false) as -> by reflexivity.
  assert (existsb is_protected_stream
            [Reasoning msg_waiting; Reasoning msg_restoring;
             ContentFrame (escapeJSON (finalResponse_of request)); DoneMark] = false) as -> by reflexivity.
  assert (existsb is_restoring
            [Reasoning msg_waiting; Reasoning msg_restoring;
             ContentFrame (escapeJSON (finalResponse_of request)); DoneMark] = true) as -> by reflexivity.
  split; [|now rewrite !orb_true_r].
  destruct (decide (Count (piiResult_of request) > 0)%Z) as [Hpos|Hzero].
  - split; [intros _; exact Hpos | intros _].
    change (existsb is_protected_stream [Reasoning (msg_protected (Count (piiResult_of request)))])
      with (is_protected_stream (Reasoning (msg_protected (Count (piiResult_of request))))
            || false).
    now rewrite msg_protected_is_protected_stream.
  - split; [discriminate | intros; contradiction].
Qed.

(** C7, as amended.  When the writer is no [http.Flusher], this is found out
    before any frame is written, and the request is answered with status 500
    and the text "Streaming not supported": no frame, no sentinel, no flush,
    no id generated, and no buffered JSON reply. *)
Theorem handleChatCompletion_without_Flusher
    (request : ChatRequest Messages) (o : Oracle) :
  let r := handleChatCompletion request (fresh_writer false, o) in
  fst r = Returned tt
  /\ body (fst (snd r)) = [Plain ("Streaming not supported" +:+ newline)]
  /\ status (fst (snd r)) = Some 500%Z
  /\ header (fst (snd r)) !! "Content-Type" = Some "text/plain; charset=utf-8"
  /\ flushed (fst (snd r)) = 0
  /\ snd (snd r) = o.
Proof.
  cbv zeta. rewrite handleChatCompletion_early_return.
  repeat split; reflexivity.
Qed.

(** *** Further properties of the handler *)

(** X6.  With a flusher, [generateID] is called exactly once, and every frame
    of the stream carries ["chatcmpl-"] followed by the id it returned. *)
Theorem handleChatCompletion_id_generated_once
    (request : ChatRequest Messages) (o : Oracle) :
  let r := handleChatCompletion request (fresh_writer true, o) in
  snd (snd r) = snd (generateID o)
  /\ Forall (fun f => frame_id f = Some (JStr ("chatcmpl-" +:+ fst (generateID o))))
       (frames (body (fst (snd r))))
  /\ 4 <= length (frames (body (fst (snd r)))).
Proof.
  cbv zeta.
  unfold handleChatCompletion, bind, on_writer, ask, sendReasoning, sendContent; simpl.
  destruct (generateID o) as [id o1]; simpl.
  destruct (decide (Count (detectPII (Messages_of request)) > 0)%Z); simpl;
    (split; [reflexivity|]; split; [repeat constructor | lia]).
Qed.

(** X7.  With a flusher, the stream is: Securing, Protected (if the count is
    positive), Waiting, Restoring, one content frame, the sentinel.  The
    de-obfuscated reply goes into that one content frame, also when it is
    empty, as [escapeJSON] writes it: as it is when it is valid UTF-8, and
    with U+FFFD for each byte outside a character otherwise. *)
Theorem handleChatCompletion_sends_reply_in_one_frame
    (request : ChatRequest Messages) (o : Oracle) :
  let r := handleChatCompletion request (fresh_writer true, o) in
  fst r = Returned tt
  /\ map shape_of (body (fst (snd r)))
     = [Reasoning msg_securing] ++ protected_phase request
       ++ [Reasoning msg_waiting; Reasoning msg_restoring;
           ContentFrame (escapeJSON (finalResponse_of request)); DoneMark]
  /\ fragments (body (fst (snd r))) = [escapeJSON (finalResponse_of request)]
  /\ (utf8_ValidString (finalResponse_of request) = true ->
      escapeJSON (finalResponse_of request) = finalResponse_of request).
Proof.
  cbv zeta.
  destruct (handleChatCompletion_trace request o) as (s' & Hrun & Hbody & _).
  rewrite Hrun; cbn [fst snd].
  split; [reflexivity|]. split; [exact Hbody|]. split.
  - revert Hrun.
    unfold handleChatCompletion, finalResponse_of, piiResult_of.
    unfold bind, on_writer, ask, sendReasoning, sendContent; simpl.
    destruct (generateID o) as [id o1]; simpl.
    destruct (decide (Count (detectPII (Messages_of request)) > 0)%Z); simpl;
      intros H; injection H as <-; reflexivity.
  - apply json_string_valid.
Qed.

(** X8.  With a flusher, the reply carries the three SSE headers, no status is
    written by the handler, and everything written has been flushed. *)
Theorem handleChatCompletion_streams_with_SSE_headers
    (request : ChatRequest Messages) (o : Oracle) :
  let w := fst (snd (handleChatCompletion request (fresh_writer true, o))) in
  header w !! "Content-Type" = Some "text/event-stream"
  /\ header w !! "Cache-Control" = Some "no-cache"
  /\ header w !! "Connection" = Some "keep-alive"
  /\ status w = None
  /\ flushed w = length (body w).
Proof.
  cbv zeta.
  unfold handleChatCompletion, bind, on_writer, ask, sendReasoning, sendContent; simpl.
  destruct (generateID o) as [id o1]; simpl.
  destruct (decide (Count (detectPII (Messages_of request)) > 0)%Z); simpl;
    repeat split; reflexivity.
Qed.

End Handler.

End StreamGuide.

(** ** Concrete runs of the two handlers *)

Module Scenario.

(** An id generator that hands out a new id at every call, and a clock. *)
Definition fresh_ids (n : nat) : string * nat :=
  ("chatcmpl-" +:+ itoa (Z.of_nat n), S n).

Definition clock (n : nat) : Z * nat := (1700000000%Z, n).

Definition serial (n : nat) : string * nat := (itoa (Z.of_nat n), S n).

(** The chat handler of the events guide on a request with the given PII map
    and upstream reply; restoration leaves the content as it is. *)
Definition events_run (flusher : bool) (piiMap : list (string * string))
    (reply : option EventsGuide.Response * option string)
    : Outcome unit * (ResponseWriter * nat) :=
  EventsGuide.chatHandler nat fresh_ids clock unit (list (string * string)) string
    (fun request => (request, piiMap)) (@length _) (fun _ => reply) (fun content _ => content)
    tt (fresh_writer flusher, 0).

(** [handleChatCompletion] of the stream guide on a request with the given
    findings count and upstream reply. *)
Definition stream_run (flusher : bool) (count : Z) (reply : string)
    : Outcome unit * (ResponseWriter * nat) :=
  StreamGuide.handleChatCompletion nat serial unit unit (list (string * string))
    (fun _ => {| StreamGuide.Count := count; StreamGuide.Mappings_of := [] |})
    (fun _ _ => tt) (fun _ => reply) (fun content _ => content)
    {| StreamGuide.Messages_of := tt; StreamGuide.Stream := true |}
    (fresh_writer flusher, 0).

Definition shapes (r : Outcome unit * (ResponseWriter * nat)) : list Shape :=
  map shape_of (body (fst (snd r))).

(** 49 ASCII bytes, then a two-byte character at offsets 49 and 50. *)
Definition straddling_content : string :=
  String.concat "" (replicate 49 "a") +:+ "é".

(** 48 ASCII bytes, a two-byte character that ends at offset 50, and more
    text: the cut at 50 falls between two characters. *)
Definition aligned_content : string :=
  String.concat "" (replicate 48 "a") +:+ "é and so on".

Definition john_smith : list (string * string) := [("John Smith", "PERSON_1")].

Definition greeting : option EventsGuide.Response * option string :=
  (Some {| EventsGuide.Content := "Hello! 👋 Nice to meet you, John Smith." |}, None).

(** A failed upstream call: a nil response and an error. *)
Definition deadline_exceeded : option EventsGuide.Response * option string :=
  (None, Some "DeadlineExceeded").

(** A failed upstream call that hands back an empty response with the error. *)
Definition deadline_exceeded_empty : option EventsGuide.Response * option string :=
  (Some {| EventsGuide.Content := "" |}, Some "DeadlineExceeded").

End Scenario.

(** ** What the concrete runs show *)

(** C1, at the failing input.  On 49 ASCII bytes followed by a two-byte
    character, the loop of [sendContentEvent] cuts at offset 50, inside the
    character: it slices every 50 bytes, not every 50 characters.
    [json.Marshal] then writes U+FFFD for each half of the character, so the
    fragments a client reads do not make up the content. *)
Theorem sendContentEvent_cuts_inside_a_character :
  let content := Scenario.straddling_content in
  let frags :=
    fragments (body (fst (snd (EventsGuide.sendContentEvent nat
                                 Scenario.fresh_ids Scenario.clock content
                                 (fresh_writer true, 0))))) in
  EventsGuide.slices content = [substring 0 50 content; substring 50 1 content]
  /\ frags = [String.concat "" (replicate 49 "a") +:+ replacement_character;
              replacement_character]
  /\ String.concat "" frags <> content
  /\ on_char_boundary content 49 = true
  /\ on_char_boundary content 50 = false
  /\ cuts_on_char_boundaries content (EventsGuide.slices content) = false.
Proof.
  cbv zeta. repeat split; try (vm_compute; reflexivity).
  intros H. apply (f_equal String.length) in H. vm_compute in H. discriminate H.
Qed.

(** C2, at the failing input.  With an id generator that returns a new id at
    every call, the frames of one stream of the chat handler carry six
    different ids: each helper calls [generateChunkID] itself. *)
Theorem chatHandler_frames_carry_different_ids :
  let items :=
    body (fst (snd (Scenario.events_run true Scenario.john_smith Scenario.greeting))) in
  map frame_id (frames items)
  = [Some (JStr "chatcmpl-0"); Some (JStr "chatcmpl-1"); Some (JStr "chatcmpl-2");
     Some (JStr "chatcmpl-3"); Some (JStr "chatcmpl-4"); Some (JStr "chatcmpl-5")]
  /\ ~ one_id items.
Proof.
  split; [vm_compute; reflexivity|].
  intros [id Hall]. vm_compute in Hall.
  inversion Hall as [|f0 l0 H0 Hrest]; subst.
  inversion Hrest as [|f1 l1 H1 _]; subst.
  congruence.
Qed.

(** C3 fails on the stream guide's handler: its frames have no finish reason
    at all, and the sentinel directly follows the content frame. *)
Lemma handleChatCompletion_has_no_terminal_frame :
  ~ one_terminal_before_done
      (body (fst (snd (Scenario.stream_run true 0 "General Kenobi.")))).
Proof.
  intros (pre & Heq & _).
  assert (In (Terminal (JStr "stop"))
            (Scenario.shapes (Scenario.stream_run true 0 "General Kenobi."))) as Hin.
  { unfold Scenario.shapes. rewrite Heq. apply in_or_app. right. left. reflexivity. }
  vm_compute in Hin. intuition discriminate.
Qed.

(** The greeting scenario runs to its end and ends with the terminal frame
    and the sentinel. *)
Lemma chatHandler_one_terminal_before_done_witness :
  Scenario.events_run true Scenario.john_smith Scenario.greeting
  = (Returned tt, snd (Scenario.events_run true Scenario.john_smith Scenario.greeting))
  /\ one_terminal_before_done
       (body (fst (snd (Scenario.events_run true Scenario.john_smith Scenario.greeting)))).
Proof.
  split; [vm_compute; reflexivity|].
  apply (EventsGuide.chatHandler_one_terminal_before_done nat Scenario.fresh_ids
           Scenario.clock unit (list (string * string)) string
           (fun request => (request, Scenario.john_smith)) (@length _)
           (fun _ => Scenario.greeting) (fun content _ => content) tt true 0).
  vm_compute; reflexivity.
Defined.

(** C4 fails when nothing was found: the Restoring frame is sent all the same. *)
Lemma handleChatCompletion_restores_when_nothing_found :
  ~ quiet_when_nothing_found 0
      (Scenario.shapes (Scenario.stream_run true 0 "General Kenobi.")).
Proof.
  intros H. destruct (H eq_refl) as [_ Hrestoring].
  vm_compute in Hrestoring. discriminate.
Qed.

(** C6, at the failing input.  The upstream call fails with a nil response
    and an error.  The flow never reads the error: the Restoring frame
    follows the Waiting frame, then [response.Content] panics on the nil
    response, in mid-stream, with no error frame, no terminal frame and no
    sentinel.  When the failed call hands back a response with the error,
    the flow goes on as on success. *)
Theorem chatHandler_panics_after_failed_call :
  let run := Scenario.events_run true [] Scenario.deadline_exceeded in
  let run' := Scenario.events_run true [] Scenario.deadline_exceeded_empty in
  fst run = Panicked
  /\ Scenario.shapes run
     = [Reasoning "🔒 Securing your request...";
        Reasoning "🤖 Waiting for AI response...";
        Reasoning "🔓 Restoring protected data..."]
  /\ ~ error_sequence_after_waiting "🤖 Waiting for AI response..." (Scenario.shapes run)
  /\ fst run' = Returned tt
  /\ Scenario.shapes run'
     = [Reasoning "🔒 Securing your request...";
        Reasoning "🤖 Waiting for AI response...";
        Reasoning "🔓 Restoring protected data...";
        Terminal (JStr "stop"); DoneMark]
  /\ ~ error_sequence_after_waiting "🤖 Waiting for AI response..." (Scenario.shapes run').
Proof.
  cbv zeta. repeat split; try (vm_compute; reflexivity).
  - intros (_ & Hrestoring & _). vm_compute in Hrestoring. discriminate.
  - intros (_ & Hrestoring & _). vm_compute in Hrestoring. discriminate.
Qed.

(** C7 fails without a flusher: the request is answered with status 500. *)
Lemma no_Flusher_is_answered_with_an_error :
  ~ served_without_stream (fst (snd (Scenario.stream_run false 0 "General Kenobi."))).
Proof.
  intros (_ & _ & Hstatus). vm_compute in Hstatus. discriminate.
Qed.

(** ** The TypeScript side: strings, values, exceptions, files, headers *)

(** A JavaScript string is a sequence of UTF-16 code units. *)
Abbreviation jsstring := (list N).

(** An ASCII literal as a JavaScript string. *)
Definition js (s : string) : jsstring := map N_of_ascii (list_ascii_of_string s).

(** [String.prototype.trim]: strips WhiteSpace and LineTerminator code units
    from both ends. *)
Definition is_js_whitespace (c : N) : bool :=
  ((c =? 9) || (c =? 10) || (c =? 11) || (c =? 12) || (c =? 13) || (c =? 32)
   || (c =? 160) || (c =? 5760) || ((8192 <=? c) && (c <=? 8202))
   || (c =? 8232) || (c =? 8233) || (c =? 8239) || (c =? 8287)
   || (c =? 12288) || (c =? 65279))%N.

Fixpoint trimStart (s : jsstring) : jsstring :=
  match s with
  | c :: s' => if is_js_whitespace c then trimStart s' else s
  | [] => []
  end.

Definition trimEnd (s : jsstring) : jsstring := rev (trimStart (rev s)).

Definition trim (s : jsstring) : jsstring := trimEnd (trimStart s).

(** ASCII lower-casing, as the Headers class and Node apply it to header names. *)
Definition lower_unit (c : N) : N :=
  if ((65 <=? c) && (c <=? 90))%N then (c + 32)%N else c.

Definition lower (s : jsstring) : jsstring := map lower_unit s.

Definition startsWith (s p : jsstring) : bool := bool_decide (take (length p) s = p).

(** Truthiness: of a string, and of a value ([undefined] is [None]). *)
Definition truthy_string (s : jsstring) : bool := negb (bool_decide (s = [])).

Definition truthy (v : option (Json jsstring)) : bool :=
  match v with
  | None | Some JNull => false
  | Some (JBool b) => b
  | Some (JNum n) => negb (n =? 0)%Z
  | Some (JStr s) => truthy_string s
  | Some (JArr _) | Some (JObj _) => true
  end.

(** [v?.k]: [undefined] when [v] is [undefined] or [null], else the member. *)
Definition opt_member (k : jsstring) (v : option (Json jsstring)) : option (Json jsstring) :=
  v ≫= member k.

(** A computation that may throw; the error is kept as its string form. *)
Inductive Exc (A : Type) : Type :=
| Normal (a : A)
| Thrown (error : jsstring).
Arguments Normal {A} a.
Arguments Thrown {A} error.

Definition exc_bind {A B : Type} (m : Exc A) (k : A -> Exc B) : Exc B :=
  match m with
  | Normal a => k a
  | Thrown e => Thrown e
  end.

(** [try { block } catch {}] around a block that may [return r] ([Some r]) or
    fall through ([None]): a throw falls through too. *)
Definition try_catch {R : Type} (block : Exc (option R)) : option R :=
  match block with
  | Normal r => r
  | Thrown _ => None
  end.

(** The part of the machine the plugin reads: the home directory, which files
    exist, and what [fs.readFileSync(path, "utf-8")] returns or throws. *)
Record FileSystem : Type := {
  homedir : jsstring;
  existsSync : jsstring -> bool;
  readFileSync : jsstring -> Exc jsstring
}.

(** [path.join(dir, rel)] for a directory without trailing separator. *)
Definition path_join (dir rel : jsstring) : jsstring := dir ++ js "/" ++ rel.

(** *** Facts about [trim] *)

(** A string that is empty or starts with a code unit [trim] would keep. *)
Definition starts_clean (s : jsstring) : Prop :=
  match s with
  | [] => True
  | c :: _ => is_js_whitespace c = false
  end.

Lemma trimStart_starts_clean (s : jsstring) : starts_clean (trimStart s).
Proof.
  induction s as [|c s IH]; simpl; [exact I|].
  destruct (is_js_whitespace c) eqn:Hc; [exact IH | exact Hc].
Qed.

Lemma trimStart_of_clean (s : jsstring) : starts_clean s -> trimStart s = s.
Proof. destruct s as [|c s]; simpl; [reflexivity | now intros ->]. Qed.

Lemma trimStart_snoc (s : jsstring) (c : N) :
  is_js_whitespace c = false -> trimStart (s ++ [c]) = trimStart s ++ [c].
Proof.
  intros Hc. induction s as [|d s IH]; simpl; [now rewrite Hc|].
  destruct (is_js_whitespace d); [exact IH | reflexivity].
Qed.

Lemma trimEnd_cons_clean (c : N) (s : jsstring) :
  is_js_whitespace c = false -> trimEnd (c :: s) = c :: trimEnd s.
Proof.
  intros Hc. unfold trimEnd. simpl rev at 2.
  rewrite trimStart_snoc by exact Hc. rewrite rev_app_distr. reflexivity.
Qed.

Lemma trimEnd_idemp (s : jsstring) : trimEnd (trimEnd s) = trimEnd s.
Proof.
  unfold trimEnd. rewrite rev_involutive.
  now rewrite (trimStart_of_clean _ (trimStart_starts_clean _)).
Qed.

Lemma trim_idemp (s : jsstring) : trim (trim s) = trim s.
Proof.
  unfold trim. pose proof (trimStart_starts_clean s) as Hclean.
  destruct (trimStart s) as [|c t] eqn:Hs; [reflexivity|].
  simpl in Hclean. rewrite trimEnd_cons_clean by exact Hclean.
  simpl. rewrite Hclean. rewrite trimEnd_cons_clean by exact Hclean.
  now rewrite trimEnd_idemp.
Qed.

(** A trimmed string that is not empty ends with a code unit [trim] keeps. *)
Lemma trimmed_ends_clean (t : jsstring) :
  trim t = t -> t <> [] ->
  exists c r, rev t = c :: r /\ is_js_whitespace c = false.
Proof.
  intros Htrim Hne.
  assert (trimEnd t = t) as Hend.
  { unfold trim in Htrim. pose proof (trimStart_starts_clean t) as Hclean.
    destruct (trimStart t) as [|c s] eqn:Hs.
    - unfold trimEnd in Htrim. simpl in Htrim. congruence.
    - rewrite <- Htrim. apply trimEnd_idemp. }
  unfold trimEnd in Hend. apply (f_equal (@rev N)) in Hend.
  rewrite rev_involutive in Hend.
  pose proof (trimStart_starts_clean (rev t)) as Hclean. rewrite Hend in Hclean.
  destruct (rev t) as [|c r] eqn:Hrev.
  - apply (f_equal (@rev N)) in Hrev. rewrite rev_involutive in Hrev. contradiction.
  - exists c, r. split; [reflexivity | exact Hclean].
Qed.

(** *** Facts about lower-casing *)

Lemma lower_unit_idemp (c : N) : lower_unit (lower_unit c) = lower_unit c.
Proof.
  unfold lower_unit.
  destruct ((65 <=? c) && (c <=? 90))%N eqn:Hc; [|now rewrite Hc].
  apply andb_true_iff in Hc as [H1 H2].
  apply N.leb_le in H1, H2.
  destruct ((65 <=? c + 32) && (c + 32 <=? 90))%N eqn:Hc'; [|reflexivity].
  apply andb_true_iff in Hc' as [_ H3]. apply N.leb_le in H3. lia.
Qed.

Lemma lower_idemp (s : jsstring) : lower (lower s) = lower s.
Proof.
  unfold lower. rewrite map_map. apply map_ext. intros c. apply lower_unit_idemp.
Qed.

(** *** The Headers class

    A header list as the Fetch standard has it: the headers in the order in
    which they were appended, each under the name it was first given, with
    its value stripped of HTTP white space at both ends.  [append] and [set]
    throw a TypeError for a name that is no token, for a value with a NUL, a
    line feed or a carriage return, and for a name or value that is no
    ByteString (a code unit above 255).  [get] joins the values of a name,
    compared without regard to case, with [", "]; [forEach] visits the
    lower-cased names in sorted order, each with its joined value, and the
    values of set-cookie one by one. *)
Definition Headers : Type := list (jsstring * jsstring).

Definition is_ByteString (s : jsstring) : bool := forallb (fun c => (c <=? 255)%N) s.

(** RFC 9110 [tchar]. *)
Definition is_tchar (c : N) : bool :=
  (((48 <=? c) && (c <=? 57)) || ((65 <=? c) && (c <=? 90)) || ((97 <=? c) && (c <=? 122))
   || existsb (N.eqb c) [33; 35; 36; 37; 38; 39; 42; 43; 45; 46; 94; 95; 96; 124; 126])%N.

Definition is_token (s : jsstring) : bool := truthy_string s && forallb is_tchar s.

(** HTTP whitespace: tab, line feed, carriage return, space. *)
Definition is_http_whitespace (c : N) : bool :=
  ((c =? 9) || (c =? 10) || (c =? 13) || (c =? 32))%N.

Fixpoint strip_start (s : jsstring) : jsstring :=
  match s with
  | c :: s' => if is_http_whitespace c then strip_start s' else s
  | [] => []
  end.

(** "Normalize" a value: strip HTTP whitespace from both ends. *)
Definition normalize_value (v : jsstring) : jsstring :=
  rev (strip_start (rev (strip_start v))).

(** A header value has no NUL, line feed or carriage return. *)
Definition is_header_value (v : jsstring) : bool :=
  forallb (fun c => negb ((c =? 0) || (c =? 10) || (c =? 13))%N) v.

(** The values stored under a name, in order. *)
Fixpoint values_of (name : jsstring) (h : Headers) : list jsstring :=
  match h with
  | [] => []
  | (n, v) :: h' =>
      if decide (lower n = lower name) then v :: values_of name h' else values_of name h'
  end.

(** The name under which a header list holds [name]: that of the first
    header of this name, if there is one. *)
Fixpoint first_name (name : jsstring) (h : Headers) : jsstring :=
  match h with
  | [] => name
  | (n, _) :: h' => if decide (lower n = lower name) then n else first_name name h'
  end.

Fixpoint without (name : jsstring) (h : Headers) : Headers :=
  match h with
  | [] => []
  | (n, v) :: h' =>
      if decide (lower n = lower name) then without name h' else (n, v) :: without name h'
  end.

(** "Set" in a header list: the first header of the name takes the value and
    the others are removed; without one the header is appended. *)
Fixpoint set_value (name v : jsstring) (h : Headers) : Headers :=
  match h with
  | [] => [(name, v)]
  | (n, w) :: h' =>
      if decide (lower n = lower name) then (n, v) :: without name h'
      else (n, w) :: set_value name v h'
  end.

Fixpoint join_values (vs : list jsstring) : jsstring :=
  match vs with
  | [] => []
  | [v] => v
  | v :: vs' => v ++ js ", " ++ join_values vs'
  end.

(** [headers.get(name)]; [None] is [null]. *)
Definition Headers_get (name : jsstring) (h : Headers) : option jsstring :=
  match values_of name h with
  | [] => None
  | vs => Some (join_values vs)
  end.

Fixpoint lex_le (a b : jsstring) : bool :=
  match a, b with
  | [], _ => true
  | _ :: _, [] => false
  | x :: a', y :: b' => ((x <? y) || ((x =? y) && lex_le a' b'))%N
  end.

Definition name_le (a b : jsstring) : Prop := lex_le a b = true.

#[local] Instance name_le_dec : RelDecision name_le.
Proof. intros a b. unfold name_le. apply _. Defined.

(** The lower-cased names of a header list, each once, sorted. *)
Definition sorted_names (h : Headers) : list jsstring :=
  merge_sort name_le (remove_dups (map (fun e => lower (fst e)) h)).

(** What [forEach] visits ("sort and combine"). *)
Definition Headers_entries (h : Headers) : list (jsstring * jsstring) :=
  sorted_names h ≫= (fun n =>
    if decide (n = js "set-cookie")
    then map (fun v => (n, v)) (values_of n h)
    else [(n, join_values (values_of n h))]).

Section HeadersClass.

(** The text of the TypeError [append] and [set] throw for a name and a
    value, and of the one the constructor throws for an [init] it does not
    accept. *)
Variable Headers_TypeError : jsstring -> jsstring -> jsstring.
Variable Headers_init_TypeError : list (jsstring * jsstring) -> jsstring.

(** The checks of [append] and [set]; the result is the normalized value. *)
Definition checked_value (name value : jsstring) : Exc jsstring :=
  if is_ByteString name && is_ByteString value
     && is_token name && is_header_value (normalize_value value)
  then Normal (normalize_value value)
  else Thrown (Headers_TypeError name value).

Definition Headers_append (name value : jsstring) (h : Headers) : Exc Headers :=
  exc_bind (checked_value name value) (fun v =>
  Normal (h ++ [(first_name name h, v)])).

Definition Headers_set (name value : jsstring) (h : Headers) : Exc Headers :=
  exc_bind (checked_value name value) (fun v =>
  Normal (set_value name v h)).

(** "Fill": append the pairs one after the other. *)
Fixpoint Headers_fill (pairs : list (jsstring * jsstring)) (h : Headers) : Exc Headers :=
  match pairs with
  | [] => Normal h
  | nv :: rest => exc_bind (Headers_append (fst nv) (snd nv) h) (Headers_fill rest)
  end.

(** [new Headers(init)] for [init] given as the sequence of name-value pairs
    the constructor reads from it: it throws when one of the pairs is not
    accepted.  [new Headers(undefined)] is empty. *)
Definition Headers_new (init : option (list (jsstring * jsstring))) : Exc Headers :=
  match init with
  | Some pairs =>
      match Headers_fill pairs [] with
      | Normal h => Normal h
      | Thrown _ => Thrown (Headers_init_TypeError pairs)
      end
  | None => Normal []
  end.

End HeadersClass.

(** *** Facts about header lists *)

Lemma values_of_without (name n : jsstring) (h : Headers) :
  values_of n (without name h)
  = if decide (lower n = lower name) then [] else values_of n h.
Proof.
  induction h as [|[k w] h IH]; cbn [without values_of]; [now destruct (decide _)|].
  destruct (decide (lower k = lower name)) as [Hk|Hk].
  - rewrite IH. destruct (decide (lower n = lower name)) as [Hn|Hn]; [reflexivity|].
    destruct (decide (lower k = lower n)); [congruence | reflexivity].
  - cbn [values_of]. rewrite IH.
    destruct (decide (lower k = lower n)) as [Hkn|Hkn];
      destruct (decide (lower n = lower name)); try reflexivity; congruence.
Qed.

(** After "set", the name has the one value; other names are as before. *)
Lemma values_of_set_value (name v n : jsstring) (h : Headers) :
  values_of n (set_value name v h)
  = if decide (lower n = lower name) then [v] else values_of n h.
Proof.
  induction h as [|[k w] h IH]; cbn [set_value values_of].
  - destruct (decide (lower name = lower n)) as [Hn|Hn];
      destruct (decide (lower n = lower name)); try reflexivity; congruence.
  - destruct (decide (lower k = lower name)) as [Hk|Hk]; cbn [values_of].
    + rewrite values_of_without.
      destruct (decide (lower k = lower n)) as [Hkn|Hkn];
        destruct (decide (lower n = lower name)); try reflexivity; congruence.
    + rewrite IH.
      destruct (decide (lower k = lower n)) as [Hkn|Hkn];
        destruct (decide (lower n = lower name)); try reflexivity; congruence.
Qed.

Lemma Headers_get_set_value (name v n : jsstring) (h : Headers) :
  Headers_get n (set_value name v h)
  = if decide (lower n = lower name) then Some v else Headers_get n h.
Proof.
  unfold Headers_get. rewrite values_of_set_value.
  destruct (decide (lower n = lower name)); reflexivity.
Qed.

Lemma assoc_app {V : Type} (n : jsstring) (l1 l2 : list (jsstring * V)) :
  assoc n (l1 ++ l2)
  = match assoc n l1 with Some v => Some v | None => assoc n l2 end.
Proof.
  induction l1 as [|[k v] l1 IH]; [reflexivity|]. cbn [app assoc].
  destruct (decide (k = n)); [reflexivity | exact IH].
Qed.

Lemma assoc_None {V : Type} (n : jsstring) (l : list (jsstring * V)) :
  assoc n l = None <-> n ∉ l.*1.
Proof.
  induction l as [|[k v] l IH]; cbn [assoc fmap list_fmap fst].
  - split; [intros _; apply not_elem_of_nil | reflexivity].
  - rewrite not_elem_of_cons. destruct (decide (k = n)) as [->|Hne].
    + split; [discriminate | intros [Hn _]; contradiction].
    + rewrite IH. split; [intros H; split; [congruence | exact H] | intros [_ H]; exact H].
Qed.

(** The last entry of a name, in a list made of one block of entries per
    name. *)
Lemma assoc_rev_bind {V : Type} (names : list jsstring)
    (block : jsstring -> list (jsstring * V)) (n : jsstring) :
  NoDup names ->
  (forall a k v, (k, v) ∈ block a -> k = a) ->
  assoc n (rev (names ≫= block))
  = if decide (n ∈ names) then assoc n (rev (block n)) else None.
Proof.
  intros Hnd Hblock. induction Hnd as [|a names Ha Hnd IH].
  - cbn. destruct (decide (n ∈ [])) as [Hin|_]; [|reflexivity].
    apply elem_of_nil in Hin. contradiction.
  - rewrite bind_cons, rev_app_distr, assoc_app, IH.
    destruct (decide (n = a)) as [->|Hne].
    + destruct (decide (a ∈ names)); [contradiction|].
      destruct (decide (a ∈ a :: names)) as [_|Hout]; [reflexivity|].
      exfalso. apply Hout. left.
    + assert (assoc n (rev (block a)) = None) as Hnone.
      { apply assoc_None. intros Hin.
        apply list_elem_of_fmap in Hin as ([k v] & -> & Hin).
        apply list_elem_of_In, in_rev, list_elem_of_In, Hblock in Hin. cbn in Hne. congruence. }
      rewrite Hnone.
      destruct (decide (n ∈ names)) as [Hin|Hout];
        destruct (decide (n ∈ a :: names)) as [Hin'|Hout'].
      * now destruct (assoc n (rev (block n))).
      * exfalso. apply Hout'. now right.
      * apply elem_of_cons in Hin' as [->|Hin']; contradiction.
      * reflexivity.
Qed.

Lemma elem_of_sorted_names (n : jsstring) (h : Headers) :
  n ∈ sorted_names h <-> n ∈ map (fun e => lower (fst e)) h.
Proof.
  unfold sorted_names. rewrite merge_sort_Permutation. apply elem_of_remove_dups.
Qed.

Lemma NoDup_sorted_names (h : Headers) : NoDup (sorted_names h).
Proof.
  unfold sorted_names. rewrite merge_sort_Permutation. apply NoDup_remove_dups.
Qed.

Lemma sorted_names_lower (n : jsstring) (h : Headers) :
  n ∈ sorted_names h -> lower n = n.
Proof.
  rewrite elem_of_sorted_names. intros Hin.
  apply list_elem_of_In, in_map_iff in Hin as ([k v] & <- & _). apply lower_idemp.
Qed.

Lemma values_of_nil (n : jsstring) (h : Headers) :
  values_of n h = [] <-> lower n ∉ map (fun e => lower (fst e)) h.
Proof.
  induction h as [|[k v] h IH]; cbn [values_of map fst].
  - split; [intros _; apply not_elem_of_nil | reflexivity].
  - rewrite not_elem_of_cons. destruct (decide (lower k = lower n)) as [Hk|Hk].
    + split; [discriminate | intros [Hn _]; congruence].
    + rewrite IH. split; [intros H; split; [congruence | exact H] | intros [_ H]; exact H].
Qed.

(** Every name [forEach] visits is lower-case. *)
Lemma Headers_entries_lower (h : Headers) (k v : jsstring) :
  (k, v) ∈ Headers_entries h -> lower k = k.
Proof.
  unfold Headers_entries. intros Hin.
  apply list_elem_of_bind in Hin as (n & Hin & Hn).
  apply sorted_names_lower in Hn.
  destruct (decide (n = js "set-cookie")).
  - apply list_elem_of_In, in_map_iff in Hin as (w & Heq & _). congruence.
  - apply list_elem_of_singleton in Hin. congruence.
Qed.

(** The last entry [forEach] visits for a name other than set-cookie is the
    joined value of the name. *)
Lemma Headers_entries_last (h : Headers) (n : jsstring) :
  lower n = n -> n <> js "set-cookie" ->
  assoc n (rev (Headers_entries h)) = Headers_get n h.
Proof.
  intros Hlower Hcookie. unfold Headers_entries.
  rewrite assoc_rev_bind.
  - destruct (decide (n = js "set-cookie")); [contradiction|].
    unfold Headers_get.
    destruct (decide (n ∈ sorted_names h)) as [Hin|Hout].
    + cbn [rev app assoc]. destruct (decide (n = n)); [|contradiction].
      destruct (values_of n h) as [|w ws] eqn:Hvalues; [|reflexivity].
      exfalso. apply values_of_nil in Hvalues. apply Hvalues.
      rewrite Hlower. now apply elem_of_sorted_names.
    + destruct (values_of n h) as [|w ws] eqn:Hvalues; [reflexivity|].
      exfalso. apply Hout, elem_of_sorted_names. rewrite <- Hlower.
      destruct (decide (lower n ∈ map (fun e => lower (fst e)) h)) as [Hin|Hnot];
        [exact Hin|].
      apply values_of_nil in Hnot. congruence.
  - apply NoDup_sorted_names.
  - intros a k v Hin. destruct (decide (a = js "set-cookie")).
    + apply list_elem_of_In, in_map_iff in Hin as (w & Heq & _). congruence.
    + apply list_elem_of_singleton in Hin. congruence.
Qed.

(** *** What [fetch] is called with *)

Record URL : Type := {
  href : jsstring;
  protocol : jsstring;
  hostname : jsstring;
  port : jsstring;
  pathname : jsstring;
  search : jsstring
}.

(** A [Request] object: its url and the headers it carries. *)
Record Request : Type := {
  url : jsstring;
  request_headers : Headers
}.

Inductive RequestInfo : Type :=
| InputString (s : jsstring)
| InputURL (u : URL)
| InputRequest (r : Request).

Inductive BodyInit : Type :=
| BodyString (s : jsstring)
| BodyArrayBuffer (bytes : list N)
| BodyView (bytes : list N)
| BodyOther (v : Json jsstring).

Record RequestInit : Type := {
  method : option jsstring;
  headers : option (list (jsstring * jsstring));
  body_init : option BodyInit
}.

(** What the underlying [fetch] is called with: the input as given, and the
    init object [{ ...init, headers }]. *)
Record FetchCall : Type := {
  call_input : RequestInfo;
  call_method : option jsstring;
  call_headers : Headers;
  call_body : option BodyInit
}.

(** The headers of the request [fetch(input, init)] makes: those of [init]
    when it has any (they replace the headers of a [Request] given as
    input), else those the input carries. *)
Definition fetch_headers (input : RequestInfo) (init_headers : option Headers) : Headers :=
  match init_headers with
  | Some h => h
  | None => match input with
            | InputRequest r => request_headers r
            | _ => []
            end
  end.

(** [v === s] for a string [s]. *)
Definition strict_eq_string (v : option (Json jsstring)) (s : jsstring) : bool :=
  match v with
  | Some (JStr t) => bool_decide (t = s)
  | _ => false
  end.

Definition typeof_string (v : option (Json jsstring)) : bool :=
  match v with
  | Some (JStr _) => true
  | _ => false
  end.

(** ** The token plugin: [resolveToken] and the auth [fetch] wrapper *)

Module TokenPlugin.

Section Plugin.

(** [JSON.parse]: a value, or a SyntaxError; and the text of the TypeError
    of the Headers class. *)
Variable JSON_parse : jsstring -> Exc (Json jsstring).
Variable Headers_TypeError : jsstring -> jsstring -> jsstring.
Variable Headers_init_TypeError : list (jsstring * jsstring) -> jsstring.

Definition tokenPath (fs : FileSystem) : jsstring :=
  path_join (homedir fs) (js ".local/share/dymium-provider/token").

Definition authPath (fs : FileSystem) : jsstring :=
  path_join (homedir fs) (js ".local/share/opencode/auth.json").

(** [auth?.dymium?.key] *)
Definition dymium_key (auth : Json jsstring) : option (Json jsstring) :=
  opt_member (js "key") (opt_member (js "dymium") (Some auth)).

Definition resolveToken (fs : FileSystem) : Exc (option jsstring) :=
  (* Primary: token file *)
  match try_catch
          (exc_bind (readFileSync fs (tokenPath fs)) (fun text =>
           let token := trim text in
           if truthy_string token then Normal (Some token) else Normal None))
  with
  | Some token => Normal (Some token)
  | None =>
      (* Fallback: auth.json *)
      match try_catch
              (exc_bind (readFileSync fs (authPath fs)) (fun text =>
               exc_bind (JSON_parse text) (fun auth =>
               let key := dymium_key auth in
               match key with
               | Some (JStr k) =>
                   if truthy key && typeof_string key && truthy_string (trim k)
                   then Normal (Some (trim k)) else Normal None
               | _ => Normal None   (* [typeof key === "string"] fails *)
               end)))
      with
      | Some key => Normal (Some key)
      | None => Normal None
      end
  end.

Definition token_truthy (token : option jsstring) : bool :=
  match token with
  | Some t => truthy_string t
  | None => false
  end.

Definition url_of (input : RequestInfo) : jsstring :=
  match input with
  | InputString s => s
  | InputURL u => href u
  | InputRequest r => url r
  end.

Definition method_or_GET (init : option RequestInit) : jsstring :=
  match init ≫= method with
  | Some m => if truthy_string m then m else js "GET"
  | None => js "GET"
  end.

(** The [fetch] of the object the auth loader returns.  The result is the
    log lines written (without their time stamps) and either the call made
    to the underlying [fetch] or a throw: [new Headers] and [headers.set]
    throw a TypeError for a name or value they do not accept, and then
    nothing more is logged and nothing is forwarded. *)
Definition fetch (fs : FileSystem) (input : RequestInfo) (init : option RequestInit)
    : list jsstring * Exc FetchCall :=
  match resolveToken fs with
  | Thrown e => ([], Thrown e)
  | Normal token =>
      let warn := if negb (token_truthy token)
                  then [js "WARN: No token available for request"] else [] in
      match Headers_new Headers_TypeError Headers_init_TypeError (init ≫= headers) with
      | Thrown e => (warn, Thrown e)
      | Normal headers0 =>
          match (match token with
                 | Some t =>
                     if truthy_string t
                     then Headers_set Headers_TypeError
                            (js "Authorization") (js "Bearer " ++ t) headers0
                     else Normal headers0
                 | None => Normal headers0
                 end)
          with
          | Thrown e => (warn, Thrown e)
          | Normal headers1 =>
              let line := js "Fetch: " ++ method_or_GET init ++ js " " ++ url_of input
                          ++ js " (token="
                          ++ (if token_truthy token then js "yes" else js "NONE")
                          ++ js ")" in
              (warn ++ [line],
               Normal {| call_input := input;
                         call_method := init ≫= method;
                         call_headers := headers1;
                         call_body := init ≫= body_init |})
          end
      end
  end.

(** [apiKey] of the object the auth loader returns. *)
Definition loader_apiKey (fs : FileSystem) : Exc jsstring :=
  exc_bind (resolveToken fs) (fun token =>
    Normal (match token with
            | Some t => if truthy_string t then t else js "dymium-pending"
            | None => js "dymium-pending"
            end)).

(** *** [resolveToken] in words *)

(** The text of the token file after trimming, when the file can be read. *)
Definition token_file (fs : FileSystem) : option jsstring :=
  match readFileSync fs (tokenPath fs) with
  | Normal text => Some (trim text)
  | Thrown _ => None
  end.

(** [dymium.key] of auth.json, when the file can be read and parsed and the
    member is a string. *)
Definition auth_key (fs : FileSystem) : option jsstring :=
  match readFileSync fs (authPath fs) with
  | Normal text =>
      match JSON_parse text with
      | Normal auth =>
          match dymium_key auth with
          | Some (JStr k) => Some k
          | _ => None
          end
      | Thrown _ => None
      end
  | Thrown _ => None
  end.

Definition nonempty (s : option jsstring) : option jsstring :=
  match s with
  | Some (c :: s') => Some (c :: s')
  | _ => None
  end.

(** As the claim words it: the key counts when it is a non-empty string. *)
Definition resolveToken_as_worded (fs : FileSystem) : option jsstring :=
  match nonempty (token_file fs) with
  | Some token => Some token
  | None => trim <$> nonempty (auth_key fs)
  end.

(** As the code has it: the key counts when it is non-empty after trimming. *)
Definition resolveToken_in_words (fs : FileSystem) : option jsstring :=
  match nonempty (token_file fs) with
  | Some token => Some token
  | None => nonempty (trim <$> auth_key fs)
  end.

(** *** Properties *)

Lemma truthy_string_nonempty (s : jsstring) :
  truthy_string s = match s with [] => false | _ :: _ => true end.
Proof. destruct s; reflexivity. Qed.

Lemma resolveToken_unfolded (fs : FileSystem) :
  resolveToken fs = Normal (resolveToken_in_words fs).
Proof.
  unfold resolveToken, resolveToken_in_words, token_file, auth_key.
  destruct (readFileSync fs (tokenPath fs)) as [text|]; simpl.
  - rewrite truthy_string_nonempty.
    destruct (trim text) as [|c t]; simpl; [|reflexivity].
    destruct (readFileSync fs (authPath fs)) as [text'|]; simpl; [|reflexivity].
    destruct (JSON_parse text') as [auth|]; simpl; [|reflexivity].
    destruct (dymium_key auth) as [[| | |k| |]|]; simpl; try reflexivity.
    rewrite !truthy_string_nonempty.
    destruct k as [|c k]; simpl; [reflexivity|].
    destruct (trim (c :: k)); reflexivity.
  - destruct (readFileSync fs (authPath fs)) as [text'|]; simpl; [|reflexivity].
    destruct (JSON_parse text') as [auth|]; simpl; [|reflexivity].
    destruct (dymium_key auth) as [[| | |k| |]|]; simpl; try reflexivity.
    rewrite !truthy_string_nonempty.
    destruct k as [|c k]; simpl; [reflexivity|].
    destruct (trim (c :: k)); reflexivity.
Qed.

(** C8, as amended.  [resolveToken] never throws.  It returns the trimmed
    text of the token file when that file can be read and is not empty after
    trimming; otherwise the trimmed [dymium.key] of auth.json when that
    member is a string that is not empty after trimming; otherwise null.
    The token file takes precedence. *)
Theorem resolveToken_never_throws (fs : FileSystem) :
  resolveToken fs
  = Normal match nonempty (token_file fs) with
           | Some token => Some token
           | None => nonempty (trim <$> auth_key fs)
           end.
Proof. apply resolveToken_unfolded. Qed.

Lemma resolveToken_token_file_first (fs : FileSystem) (token : jsstring) :
  nonempty (token_file fs) = Some token -> resolveToken fs = Normal (Some token).
Proof.
  intros H. rewrite resolveToken_unfolded. unfold resolveToken_in_words.
  rewrite H. reflexivity.
Qed.

Lemma resolveToken_nonempty (fs : FileSystem) (token : jsstring) :
  resolveToken fs = Normal (Some token) -> truthy_string token = true.
Proof.
  rewrite resolveToken_unfolded. unfold resolveToken_in_words, nonempty.
  intros H. injection H as H.
  destruct (token_file fs) as [[|c t]|];
    [| injection H as <-; reflexivity |];
    (destruct (trim <$> auth_key fs) as [[|c' t']|];
     [discriminate | injection H as <-; reflexivity | discriminate]).
Qed.

(** A token [resolveToken] returns is not empty and is trimmed. *)
Lemma resolveToken_trimmed (fs : FileSystem) (token : jsstring) :
  resolveToken fs = Normal (Some token) -> token <> [] /\ trim token = token.
Proof.
  rewrite resolveToken_unfolded. unfold resolveToken_in_words, nonempty, token_file.
  intros H. injection H as H.
  destruct (readFileSync fs (tokenPath fs)) as [text|e].
  - destruct (trim text) as [|c t] eqn:Htext.
    + destruct (auth_key fs) as [k|]; simpl in H; [|discriminate H].
      destruct (trim k) as [|c t] eqn:Hk; [discriminate H|].
      injection H as <-. split; [discriminate|]. rewrite <- Hk. apply trim_idemp.
    + injection H as <-. split; [discriminate|]. rewrite <- Htext. apply trim_idemp.
  - destruct (auth_key fs) as [k|]; simpl in H; [|discriminate H].
    destruct (trim k) as [|c t] eqn:Hk; [discriminate H|].
    injection H as <-. split; [discriminate|]. rewrite <- Hk. apply trim_idemp.
Qed.

(** The value ["Bearer <token>"] of a trimmed token has no white space to
    strip. *)
Lemma normalize_Bearer (token : jsstring) :
  token <> [] -> trim token = token ->
  normalize_value (js "Bearer " ++ token) = js "Bearer " ++ token.
Proof.
  intros Hne Htrim.
  destruct (trimmed_ends_clean token Htrim Hne) as (c & r & Hrev & Hc).
  unfold normalize_value.
  change (strip_start (js "Bearer " ++ token)) with (js "Bearer " ++ token).
  rewrite rev_app_distr, Hrev.
  assert (is_http_whitespace c = false) as Hhttp.
  { unfold is_http_whitespace. unfold is_js_whitespace in Hc.
    repeat (apply orb_false_iff in Hc as [Hc ?]).
    repeat (apply orb_false_iff; split); assumption. }
  cbn [app strip_start]. rewrite Hhttp.
  change (c :: r ++ rev (js "Bearer ")) with ((c :: r) ++ rev (js "Bearer ")).
  rewrite <- Hrev, <- rev_app_distr. apply rev_involutive.
Qed.

Lemma is_ByteString_Bearer (token : jsstring) :
  is_ByteString (js "Bearer " ++ token) = is_ByteString token.
Proof. unfold is_ByteString. now rewrite forallb_app. Qed.

Lemma is_header_value_Bearer (token : jsstring) :
  is_header_value (js "Bearer " ++ token) = is_header_value token.
Proof. unfold is_header_value. now rewrite forallb_app. Qed.

(** [headers.set("Authorization", `Bearer ${token}`)] for the token
    [resolveToken] returned: it throws exactly when the token has a code
    unit above 255, a NUL, a line feed or a carriage return. *)
Lemma set_Authorization (fs : FileSystem) (token : jsstring) (h : Headers) :
  resolveToken fs = Normal (Some token) ->
  Headers_set Headers_TypeError (js "Authorization") (js "Bearer " ++ token) h
  = if is_ByteString token && is_header_value token
    then Normal (set_value (js "Authorization") (js "Bearer " ++ token) h)
    else Thrown (Headers_TypeError (js "Authorization") (js "Bearer " ++ token)).
Proof.
  intros Htoken. apply resolveToken_trimmed in Htoken as [Hne Htrim].
  unfold Headers_set, checked_value.
  rewrite (normalize_Bearer token Hne Htrim).
  rewrite is_ByteString_Bearer, is_header_value_Bearer.
  change (is_ByteString (js "Authorization")) with true.
  change (is_token (js "Authorization")) with true.
  cbn [andb]. rewrite andb_true_r.
  destruct (is_ByteString token && is_header_value token); reflexivity.
Qed.

(** The headers the caller's own [fetch(input, init)] would send. *)
Definition callers_headers (input : RequestInfo) (init : option RequestInit)
    : Exc Headers :=
  match init ≫= headers with
  | Some pairs => Headers_new Headers_TypeError Headers_init_TypeError (Some pairs)
  | None => Normal (fetch_headers input None)
  end.

(** C9 as it is worded: without a token the wrapper does not throw and
    forwards the request with the caller's headers; with a token it
    forwards the request with Authorization ["Bearer <token>"]. *)
Definition fetch_as_claimed (fs : FileSystem) (input : RequestInfo)
    (init : option RequestInit) : Prop :=
  match resolveToken fs with
  | Normal None =>
      exists call,
        snd (fetch fs input init) = Normal call
        /\ call_input call = input
        /\ Normal (fetch_headers input (Some (call_headers call)))
           = callers_headers input init
  | Normal (Some token) =>
      exists call,
        snd (fetch fs input init) = Normal call
        /\ Headers_get (js "authorization") (call_headers call)
           = Some (js "Bearer " ++ token)
  | Thrown _ => False
  end.

(** C9, as amended.  The wrapper throws only the TypeError of
    [new Headers(init.headers)], for headers of the caller it does not
    accept, or of [headers.set], for a token with a code unit above 255, a
    NUL, a line feed or a carriage return.  Otherwise it calls the
    underlying [fetch] with the caller's input, method and body and with the
    headers of [init]: as they are when [resolveToken] returned null, and
    with Authorization, whatever the caller supplied under any
    capitalisation, replaced by ["Bearer <token>"] when it returned a token.
    The headers a [Request] given as input carries are not read. *)
Theorem fetch_forwards_and_sets_bearer
    (fs : FileSystem) (input : RequestInfo) (init : option RequestInit) :
  match snd (fetch fs input init) with
  | Normal call =>
      call_input call = input
      /\ call_method call = init ≫= method
      /\ call_body call = init ≫= body_init
      /\ exists h0,
           Headers_new Headers_TypeError Headers_init_TypeError (init ≫= headers)
           = Normal h0
           /\ match resolveToken fs with
              | Normal (Some token) =>
                  (forall name, lower name = js "authorization" ->
                     Headers_get name (call_headers call) = Some (js "Bearer " ++ token))
                  /\ (forall name, lower name <> js "authorization" ->
                        Headers_get name (call_headers call) = Headers_get name h0)
              | _ => call_headers call = h0
              end
  | Thrown e =>
      Headers_new Headers_TypeError Headers_init_TypeError (init ≫= headers) = Thrown e
      \/ exists token,
           resolveToken fs = Normal (Some token)
           /\ is_ByteString token && is_header_value token = false
           /\ e = Headers_TypeError (js "Authorization") (js "Bearer " ++ token)
  end.
Proof.
  unfold fetch.
  destruct (resolveToken fs) as [[token|]|e] eqn:Htoken.
  - destruct (Headers_new Headers_TypeError Headers_init_TypeError (init ≫= headers))
      as [h0|e]; cbn [snd]; [|now left].
    rewrite (resolveToken_nonempty fs token Htoken).
    rewrite (set_Authorization fs token h0 Htoken).
    destruct (is_ByteString token && is_header_value token) eqn:Hvalid; cbn [snd].
    + repeat split. exists h0. split; [reflexivity|].
      cbn [call_headers]. split; intros name Hname; rewrite Headers_get_set_value.
      * destruct (decide (lower name = lower (js "Authorization"))) as [_|Hne];
          [reflexivity|]. exfalso. apply Hne. exact Hname.
      * destruct (decide (lower name = lower (js "Authorization"))) as [Heq|_];
          [|reflexivity]. exfalso. apply Hname. exact Heq.
    + right. exists token. auto.
  - destruct (Headers_new Headers_TypeError Headers_init_TypeError (init ≫= headers))
      as [h0|e]; cbn [snd]; [|now left].
    repeat split. exists h0. split; reflexivity.
  - rewrite resolveToken_unfolded in Htoken. discriminate Htoken.
Qed.

(** *** Further properties of the token plugin *)

(** X10.  A token [resolveToken] returns is never empty and has no white
    space at either end: trimming it again changes nothing. *)
Theorem resolveToken_is_trimmed (fs : FileSystem) (token : jsstring) :
  resolveToken fs = Normal (Some token) -> token <> [] /\ trim token = token.
Proof. apply resolveToken_trimmed. Qed.

(** X11.  The [apiKey] the auth loader returns is never empty: it is the
    token when one is resolved, and ["dymium-pending"] otherwise. *)
Theorem loader_apiKey_never_empty (fs : FileSystem) :
  exists key,
    loader_apiKey fs = Normal key
    /\ key <> []
    /\ match resolveToken fs with
       | Normal (Some token) => key = token
       | _ => key = js "dymium-pending"
       end.
Proof.
  unfold loader_apiKey.
  destruct (resolveToken fs) as [[token|]|e] eqn:Htoken; simpl.
  - pose proof (resolveToken_nonempty fs token Htoken) as Htruthy.
    rewrite Htruthy. exists token. repeat split.
    intros ->. discriminate Htruthy.
  - exists (js "dymium-pending"). repeat split. discriminate.
  - rewrite resolveToken_unfolded in Htoken. discriminate Htoken.
Qed.

End Plugin.

End TokenPlugin.
(** ** The auth plugin: token, HTTP/1.1 request, session tracker *)

(** A [Record<string, string>]: its own keys in insertion order (keys that
    look like array indices, which JavaScript lists first, do not occur among
    header names that matter here).  Assigning to a key that exists replaces
    its value in place; a new key goes last. *)
Fixpoint obj_set (k v : jsstring) (o : list (jsstring * jsstring))
    : list (jsstring * jsstring) :=
  match o with
  | [] => [(k, v)]
  | (k', v') :: o' => if decide (k' = k) then (k, v) :: o' else (k', v') :: obj_set k v o'
  end.

(** *** Node's [http.request]

    [ClientRequest] takes the method, the path and the headers of its
    options.  It throws for a method or a header name that is no token
    (ERR_INVALID_HTTP_TOKEN), for a header value with a character other than
    tab, the printable ASCII characters and 0x80 to 0xFF (ERR_INVALID_CHAR),
    and for a path with a character outside 0x21 to 0xFF
    (ERR_UNESCAPED_CHARACTERS).  It calls [setHeader] for each key of
    [options.headers] in turn, and stores each header under its lower-cased
    name; the Host header it would add itself is never needed, since the
    plugin sets one, the hostname of an http or https URL, which is not
    empty.  When the header block is written, a request with neither
    Content-Length nor Transfer-Encoding whose method takes a body by default
    gets one of the two from Node: ["Content-Length: 0"] when the request is
    ended with nothing written, ["Transfer-Encoding: chunked"] otherwise; a
    Trailer header on a request that is not chunked is an error
    (ERR_HTTP_TRAILER_INVALID). *)
Definition setHeader (sent : gmap jsstring jsstring) (kv : jsstring * jsstring)
    : gmap jsstring jsstring :=
  <[lower (fst kv) := snd kv]> sent.

Definition ClientRequest_headers (o : list (jsstring * jsstring)) : gmap jsstring jsstring :=
  fold_left setHeader o ∅.

Definition valid_header_char (c : N) : bool :=
  ((c =? 9) || ((32 <=? c) && (c <=? 126)) || ((128 <=? c) && (c <=? 255)))%N.

Definition valid_path_char (c : N) : bool := ((33 <=? c) && (c <=? 255))%N.

(** ASCII upper-casing, as [toUpperCase] acts on a token. *)
Definition upper_unit (c : N) : N :=
  if ((97 <=? c) && (c <=? 122))%N then (c - 32)%N else c.

Definition upper (s : jsstring) : jsstring := map upper_unit s.

(** The methods other than GET, HEAD, DELETE, OPTIONS, TRACE and CONNECT
    take a body by default ([useChunkedEncodingByDefault]). *)
Definition chunked_by_default (method_ : jsstring) : bool :=
  negb (bool_decide (upper method_ ∈ [js "GET"; js "HEAD"; js "DELETE";
                                       js "OPTIONS"; js "TRACE"; js "CONNECT"])).

Definition is_word_unit (c : N) : bool :=
  (((48 <=? c) && (c <=? 57)) || ((65 <=? c) && (c <=? 90))
   || ((97 <=? c) && (c <=? 122)) || (c =? 95))%N.

(** [/(?:^|\W)chunked(?:$|\W)/i] *)
Fixpoint matches_chunked_from (after_word : bool) (s : jsstring) : bool :=
  match s with
  | [] => false
  | c :: s' =>
      (negb after_word
       && bool_decide (lower (take 7 s) = js "chunked")
       && match drop 7 s with
          | [] => true
          | d :: _ => negb (is_word_unit d)
          end)
      || matches_chunked_from (is_word_unit c) s'
  end.

Definition matches_chunked (v : jsstring) : bool := matches_chunked_from false v.

Definition has_header (name : jsstring) (store : gmap jsstring jsstring) : bool :=
  bool_decide (is_Some (store !! name)).

(** [getHeader('expect')] is truthy: the header block is then written when
    the request is made. *)
Definition expects (store : gmap jsstring jsstring) : bool :=
  match store !! js "expect" with
  | Some v => truthy_string v
  | None => false
  end.

(** The header Node adds when it writes the header block; [wrote] tells
    whether a body was written before the request was ended. *)
Definition implicit_headers (method_ : jsstring) (store : gmap jsstring jsstring)
    (wrote : bool) : list (jsstring * jsstring) :=
  if has_header (js "content-length") store || has_header (js "transfer-encoding") store
  then []
  else if negb (chunked_by_default method_) then []
  else if wrote || expects store || has_header (js "trailer") store
  then [(js "Transfer-Encoding", js "chunked")]
  else [(js "Content-Length", js "0")].

(** Whether the request is sent chunked. *)
Definition is_chunked (method_ : jsstring) (store : gmap jsstring jsstring)
    (wrote : bool) : bool :=
  match store !! js "transfer-encoding" with
  | Some v => matches_chunked v
  | None =>
      negb (has_header (js "content-length") store)
      && chunked_by_default method_
      && (wrote || expects store || has_header (js "trailer") store)
  end.

(** [Buffer.byteLength(s)]: the length of [s] in UTF-8. *)
Fixpoint byteLength (s : jsstring) : N :=
  match s with
  | [] => 0
  | c :: s' =>
      if (c <? 128)%N then 1 + byteLength s'
      else if (c <? 2048)%N then 2 + byteLength s'
      else if ((55296 <=? c) && (c <=? 56319))%N
      then match s' with
           | d :: s'' => if ((56320 <=? d) && (d <=? 57343))%N
                         then 4 + byteLength s'' else 3 + byteLength s'
           | [] => 3
           end
      else 3 + byteLength s'
  end%N.

Definition number_toString (n : Z) : jsstring := js (itoa n).

Inductive Port : Type :=
| PortText (s : jsstring)
| PortNumber (n : Z).

Record RequestOptions : Type := {
  ro_hostname : jsstring;
  ro_port : Port;
  ro_path : jsstring;
  ro_method : jsstring;
  ro_headers : list (jsstring * jsstring)
}.

(** Whether [lib.request(options)], [req.write] and [req.end] go through
    without throwing. *)
Definition ClientRequest_accepts (options : RequestOptions) (wrote : bool) : bool :=
  let store := ClientRequest_headers (ro_headers options) in
  forallb valid_path_char (ro_path options)
  && (negb (truthy_string (ro_method options)) || is_token (ro_method options))
  && forallb (fun kv => is_token (fst kv) && forallb valid_header_char (snd kv))
       (ro_headers options)
  && (negb (has_header (js "trailer") store)
      || is_chunked (ro_method options) store wrote).

(** The header block of the request, under lower-cased names. *)
Definition ClientRequest_sends (options : RequestOptions) (wrote : bool)
    : gmap jsstring jsstring :=
  let store := ClientRequest_headers (ro_headers options) in
  fold_left setHeader (implicit_headers (ro_method options) store wrote) store.

(** The request [lib.request(reqOptions, ...)] sends. *)
Record OutgoingRequest : Type := {
  over_https : bool;
  reqOptions : RequestOptions;
  sent_headers : gmap jsstring jsstring;
  written : option jsstring;
  timeout_ms : Z
}.

Record SessionState : Type := {
  requestStartTime : option Z;
  lastStatus : Json jsstring;
  isProcessing : bool
}.

(** [Number.isSafeInteger]: the integers on which the arithmetic of doubles
    is the arithmetic of integers. *)
Definition isSafeInteger (n : Z) : bool :=
  ((- (2 ^ 53 - 1) <=? n) && (n <=? 2 ^ 53 - 1))%Z.

(** *** Facts about objects and the header block *)

Lemma obj_set_fresh (k v : jsstring) (o : list (jsstring * jsstring)) :
  k ∉ o.*1 -> obj_set k v o = o ++ [(k, v)].
Proof.
  induction o as [|[k' v'] o IH]; intros Hk; simpl; [reflexivity|].
  simpl in Hk. apply not_elem_of_cons in Hk as [Hne Hk].
  destruct (decide (k' = k)) as [->|_]; [contradiction|].
  now rewrite IH.
Qed.

Lemma obj_set_app_fresh (k v : jsstring) (d o : list (jsstring * jsstring)) :
  k ∉ d.*1 -> obj_set k v (d ++ o) = d ++ obj_set k v o.
Proof.
  induction d as [|[k' v'] d IH]; intros Hk; cbn [app obj_set]; [reflexivity|].
  cbn in Hk. apply not_elem_of_cons in Hk as [Hne Hk].
  destruct (decide (k' = k)) as [->|_]; [contradiction|].
  now rewrite IH.
Qed.

Lemma assoc_obj_set (n k v : jsstring) (o : list (jsstring * jsstring)) :
  assoc n (obj_set k v o) = if decide (k = n) then Some v else assoc n o.
Proof.
  induction o as [|[k' v'] o IH]; cbn [obj_set assoc]; [reflexivity|].
  destruct (decide (k' = k)) as [->|Hne]; cbn [assoc].
  - destruct (decide (k = n)); reflexivity.
  - rewrite IH. destruct (decide (k' = n)) as [->|_]; [|reflexivity].
    destruct (decide (k = n)); [congruence | reflexivity].
Qed.

Lemma keys_obj_set (k v k' : jsstring) (o : list (jsstring * jsstring)) :
  k' ∈ (obj_set k v o).*1 <-> k' = k \/ k' ∈ o.*1.
Proof.
  induction o as [|[k0 v0] o IH]; cbn [obj_set].
  - cbn. rewrite list_elem_of_singleton, elem_of_nil. tauto.
  - destruct (decide (k0 = k)) as [->|Hne]; cbn; rewrite !elem_of_cons.
    + tauto.
    + rewrite IH. tauto.
Qed.

Lemma NoDup_obj_set (k v : jsstring) (o : list (jsstring * jsstring)) :
  NoDup o.*1 -> NoDup (obj_set k v o).*1.
Proof.
  induction o as [|[k0 v0] o IH]; cbn [obj_set]; intros Hnd.
  - cbn. apply NoDup_singleton.
  - cbn in Hnd. apply NoDup_cons in Hnd as [Hk0 Hnd].
    destruct (decide (k0 = k)) as [->|Hne]; cbn.
    + apply NoDup_cons. split; assumption.
    + apply NoDup_cons. split; [|apply IH, Hnd].
      rewrite keys_obj_set. intros [Heq|Hin]; [congruence | contradiction].
Qed.

(** Copying entries into an object, one assignment per entry. *)
Definition assign_all (entries o : list (jsstring * jsstring))
    : list (jsstring * jsstring) :=
  fold_left (fun o' kv => obj_set (fst kv) (snd kv) o') entries o.

Lemma assign_all_app_fresh (entries d o : list (jsstring * jsstring)) :
  (forall k, k ∈ entries.*1 -> k ∉ d.*1) ->
  assign_all entries (d ++ o) = d ++ assign_all entries o.
Proof.
  unfold assign_all. revert o.
  induction entries as [|[k v] entries IH]; intros o Hfresh; cbn [fold_left fst snd];
    [reflexivity|].
  rewrite obj_set_app_fresh by (apply Hfresh; cbn; left).
  apply IH. intros k' Hk'. apply Hfresh. cbn. now right.
Qed.

Lemma assoc_assign_all (n : jsstring) (entries o : list (jsstring * jsstring)) :
  assoc n (assign_all entries o)
  = match assoc n (rev entries) with Some v => Some v | None => assoc n o end.
Proof.
  unfold assign_all. revert o.
  induction entries as [|[k v] entries IH]; intros o; cbn [fold_left fst snd rev];
    [reflexivity|].
  rewrite IH, assoc_app, assoc_obj_set. cbn [assoc].
  destruct (assoc n (rev entries)); [reflexivity|].
  destruct (decide (k = n)); reflexivity.
Qed.

Lemma keys_assign_all (k : jsstring) (entries o : list (jsstring * jsstring)) :
  k ∈ (assign_all entries o).*1 -> k ∈ entries.*1 \/ k ∈ o.*1.
Proof.
  unfold assign_all. revert o.
  induction entries as [|[k0 v0] entries IH]; intros o; cbn [fold_left fst snd];
    [now right|].
  intros Hin. apply IH in Hin as [Hin|Hin]; [left; cbn; now right|].
  apply keys_obj_set in Hin as [->|Hin]; [left; cbn; left | now right].
Qed.

Lemma NoDup_assign_all (entries o : list (jsstring * jsstring)) :
  NoDup o.*1 -> NoDup (assign_all entries o).*1.
Proof.
  unfold assign_all. revert o.
  induction entries as [|[k v] entries IH]; intros o Hnd; cbn [fold_left fst snd];
    [exact Hnd|].
  apply IH, NoDup_obj_set, Hnd.
Qed.

Lemma ClientRequest_headers_app (o1 o2 : list (jsstring * jsstring)) :
  ClientRequest_headers (o1 ++ o2) = fold_left setHeader o2 (ClientRequest_headers o1).
Proof. unfold ClientRequest_headers. apply fold_left_app. Qed.

(** Setting headers whose names are lower-case and differ from one another:
    a header set wins, other names are as before. *)
Lemma fold_setHeader_lower (o : list (jsstring * jsstring))
    (sent : gmap jsstring jsstring) (n : jsstring) :
  (forall k, k ∈ o.*1 -> lower k = k) -> NoDup o.*1 ->
  fold_left setHeader o sent !! n
  = match assoc n o with Some v => Some v | None => sent !! n end.
Proof.
  revert sent. induction o as [|[k v] o IH]; intros sent Hlower Hnd;
    cbn [fold_left assoc]; [reflexivity|].
  cbn in Hnd. apply NoDup_cons in Hnd as [Hk Hnd].
  rewrite IH by (try exact Hnd; intros k' Hk'; apply Hlower; cbn; now right).
  unfold setHeader; cbn [fst snd]. rewrite (Hlower k) by (cbn; left).
  destruct (decide (k = n)) as [->|Hne].
  - apply assoc_None in Hk. rewrite Hk. apply lookup_insert_eq.
  - destruct (assoc n o); [reflexivity|]. now apply lookup_insert_ne.
Qed.

(** Two header blocks that agree on a name agree on it after the same
    headers are set on both. *)
Lemma fold_setHeader_agree (o : list (jsstring * jsstring))
    (sent1 sent2 : gmap jsstring jsstring) (n : jsstring) :
  sent1 !! n = sent2 !! n ->
  fold_left setHeader o sent1 !! n = fold_left setHeader o sent2 !! n.
Proof.
  revert sent1 sent2. induction o as [|[k v] o IH]; intros sent1 sent2 Hagree;
    cbn [fold_left]; [exact Hagree|].
  apply IH. unfold setHeader; cbn [fst snd].
  destruct (decide (lower k = n)) as [->|Hne].
  - now rewrite !lookup_insert_eq.
  - now rewrite !lookup_insert_ne.
Qed.

(** A header Node adds is Content-Length or Transfer-Encoding. *)
Lemma ClientRequest_sends_other (options : RequestOptions) (wrote : bool) (n : jsstring) :
  n <> js "content-length" -> n <> js "transfer-encoding" ->
  ClientRequest_sends options wrote !! n
  = ClientRequest_headers (ro_headers options) !! n.
Proof.
  intros Hlength Hencoding. unfold ClientRequest_sends, implicit_headers. cbv zeta.
  destruct (has_header (js "content-length") _ || has_header (js "transfer-encoding") _);
    [reflexivity|].
  destruct (negb (chunked_by_default (ro_method options))); [reflexivity|].
  destruct (wrote || expects _ || has_header (js "trailer") _);
    cbn [fold_left]; unfold setHeader; cbn [fst snd];
    apply lookup_insert_ne; intros Heq;
    first [apply Hencoding; rewrite <- Heq; reflexivity
          |apply Hlength; rewrite <- Heq; reflexivity].
Qed.
Module AuthPlugin.

Section Plugin.

(** The runtime: [JSON.parse], [new URL(s)], the string form of arrays and
    objects, [JSON.stringify], [TextDecoder.decode], the text of the
    TypeError for a property read on [null], the texts of the TypeErrors of
    the Headers class, the error with which [http.request], [req.write] or
    [req.end] throws for a request that is not accepted, and what
    [formatDuration] makes of a number that is no safe integer. *)
Variable JSON_parse : jsstring -> Exc (Json jsstring).
Variable URL_parse : jsstring -> Exc URL.
Variable ToString_object : Json jsstring -> jsstring.
Variable JSON_stringify : Json jsstring -> jsstring.
Variable TextDecoder_decode : list N -> jsstring.
Variable TypeError_text : jsstring.
Variable Headers_TypeError : jsstring -> jsstring -> jsstring.
Variable Headers_init_TypeError : list (jsstring * jsstring) -> jsstring.
Variable ClientRequest_error : RequestOptions -> bool -> jsstring.
Variable formatDuration_unsafe : Z -> jsstring.

(** A value inside a template literal. *)
Definition template (v : option (Json jsstring)) : jsstring :=
  match v with
  | None => js "undefined"
  | Some JNull => js "null"
  | Some (JBool true) => js "true"
  | Some (JBool false) => js "false"
  | Some (JNum n) => number_toString n
  | Some (JStr s) => s
  | Some v' => ToString_object v'
  end.

Definition AUTH_JSON_PATH (fs : FileSystem) : jsstring :=
  path_join (homedir fs) (js ".local/share/opencode/auth.json").

(** [auth.dymium?.key]: reading [dymium] of [null] throws. *)
Definition auth_dymium_key (auth : Json jsstring) : Exc (option (Json jsstring)) :=
  match auth with
  | JNull => Thrown TypeError_text
  | _ => Normal (opt_member (js "key") (member (js "dymium") auth))
  end.

(** Returns the log lines written and the token, [None] for [null]. *)
Definition getDymiumToken (fs : FileSystem) : list jsstring * option (Json jsstring) :=
  match
    (if negb (existsSync fs (AUTH_JSON_PATH fs))
     then Normal ([js "auth.json not found at " ++ AUTH_JSON_PATH fs], None)
     else
       exc_bind (readFileSync fs (AUTH_JSON_PATH fs)) (fun content =>
       exc_bind (JSON_parse content) (fun auth =>
       exc_bind (auth_dymium_key auth) (fun key =>
       if truthy key
       then Normal ([], key)
       else Normal ([js "No dymium.key found in auth.json"], None)))))
  with
  | Normal r => r
  | Thrown error => ([js "Failed to read auth.json: " ++ error], None)
  end.

(** [if (options.body)] *)
Definition has_body (body_ : option jsstring) : bool :=
  match body_ with
  | Some b => truthy_string b
  | None => false
  end.

(** [reqOptions], with Content-Length added for a request with a body. *)
Definition reqOptions_for (u : URL) (method_ : jsstring)
    (headers_ : list (jsstring * jsstring)) (body_ : option jsstring) : RequestOptions :=
  let isHttps := bool_decide (protocol u = js "https:") in
  let hostHeader := hostname u in
  let headers0 :=
    obj_set (js "Connection") (js "close") (obj_set (js "Host") hostHeader headers_) in
  let headers1 :=
    match body_ with
    | Some b => if truthy_string b
                then obj_set (js "Content-Length")
                       (number_toString (Z.of_N (byteLength b))) headers0
                else headers0
    | None => headers0
    end in
  {| ro_hostname := hostname u;
     ro_port := if truthy_string (port u) then PortText (port u)
                else PortNumber (if isHttps then 443 else 80);
     ro_path := pathname u ++ search u;
     ro_method := method_;
     ro_headers := headers1 |}.

(** The log line written, and the request sent or the error with which the
    promise is rejected when [lib.request], [req.write] or [req.end]
    throws. *)
Definition http11Request (u : URL) (method_ : jsstring)
    (headers_ : list (jsstring * jsstring)) (body_ : option jsstring)
    : list jsstring * Exc OutgoingRequest :=
  let isHttps := bool_decide (protocol u = js "https:") in
  let hostHeader := hostname u in
  let options := reqOptions_for u method_ headers_ body_ in
  ([js "HTTP/1.1 " ++ method_ ++ js " " ++ href u ++ js " Host: " ++ hostHeader],
   if ClientRequest_accepts options (has_body body_)
   then Normal {| over_https := isHttps;
                  reqOptions := options;
                  sent_headers := ClientRequest_sends options (has_body body_);
                  written := if has_body body_ then body_ else None;
                  timeout_ms := 120000 |}
   else Thrown (ClientRequest_error options (has_body body_))).

Definition no_token_error : jsstring :=
  js "Error: [dymium-auth] No valid Dymium token available. Please ensure the Dymium Provider app is running.".

Definition parse_input (input : RequestInfo) : Exc URL :=
  match input with
  | InputString s => URL_parse s
  | InputURL u => Normal u
  | InputRequest r => URL_parse (url r)
  end.

Definition default_headers : list (jsstring * jsstring) :=
  [ (js "Content-Type", js "application/json");
    (js "Accept", js "application/json, text/event-stream") ].

(** [if (init?.headers) { new Headers(init.headers).forEach((value, key) =>
    { headers[key] = value }) }] *)
Definition copy_init_headers (init : option RequestInit)
    (o : list (jsstring * jsstring)) : Exc (list (jsstring * jsstring)) :=
  match init ≫= headers with
  | Some pairs =>
      exc_bind (Headers_new Headers_TypeError Headers_init_TypeError (Some pairs))
        (fun initHeaders => Normal (assign_all (Headers_entries initHeaders) o))
  | None => Normal o
  end.

(** [if (init?.body) { ... }]: the body as a string, [None] for [undefined]. *)
Definition body_string (init : option RequestInit) : option jsstring :=
  match init ≫= body_init with
  | Some (BodyString s) => if truthy_string s then Some s else None
  | Some (BodyArrayBuffer bytes) => Some (TextDecoder_decode bytes)
  | Some (BodyView bytes) => Some (TextDecoder_decode bytes)
  | Some (BodyOther v) => if truthy (Some v) then Some (template (Some v)) else None
  | None => None
  end.

Definition method_or_GET (init : option RequestInit) : jsstring :=
  match init ≫= method with
  | Some m => if truthy_string m then m else js "GET"
  | None => js "GET"
  end.

(** Log lines written, and the request sent or the error thrown. *)
Definition dymiumFetch (fs : FileSystem) (input : RequestInfo)
    (init : option RequestInit) : list jsstring * Exc OutgoingRequest :=
  let (lines, token) := getDymiumToken fs in
  if negb (truthy token)
  then (lines, Thrown no_token_error)
  else
    match parse_input input with
    | Thrown e => (lines, Thrown e)
    | Normal u =>
        match copy_init_headers init default_headers with
        | Thrown e => (lines, Thrown e)
        | Normal headers0 =>
            let headers1 :=
              obj_set (js "Authorization") (js "Bearer " ++ template token) headers0 in
            let (line, req) :=
              http11Request u (method_or_GET init) headers1 (body_string init) in
            (lines ++ line, req)
        end
    end.

(** *** The headers of the request sent *)

Ltac differ := let H := fresh in intros H; vm_compute in H; discriminate H.

(** Looks a header up among those set one after another. *)
Ltac look :=
  repeat (rewrite lookup_insert_ne by differ);
  try (apply lookup_insert_eq).

(** The headers of [init] as the Headers class holds them; none without
    [init.headers]. *)
Definition init_headers (init : option RequestInit) : Exc Headers :=
  Headers_new Headers_TypeError Headers_init_TypeError (init ≫= headers).

(** The headers object after the copy: the defaults, then one key per
    lower-cased name of [init.headers]. *)
Lemma copy_init_headers_Normal (init : option RequestInit)
    (o : list (jsstring * jsstring)) :
  copy_init_headers init default_headers = Normal o ->
  exists h,
    init_headers init = Normal h
    /\ o = default_headers ++ assign_all (Headers_entries h) [].
Proof.
  unfold copy_init_headers, init_headers. destruct (init ≫= headers) as [pairs|].
  - destruct (Headers_new Headers_TypeError Headers_init_TypeError (Some pairs))
      as [h|e]; cbn [exc_bind]; [|discriminate].
    intros H. injection H as <-. exists h. split; [reflexivity|].
    rewrite <- (app_nil_r default_headers) at 1.
    apply assign_all_app_fresh. intros k Hk Hdefault.
    apply list_elem_of_fmap in Hk as ([k' v] & -> & Hk).
    apply Headers_entries_lower in Hk. cbn in Hdefault.
    rewrite !elem_of_cons, elem_of_nil in Hdefault.
    destruct Hdefault as [Heq|[Heq|[]]]; rewrite Heq in Hk; vm_compute in Hk;
      discriminate Hk.
  - intros H. injection H as <-. exists []. split; reflexivity.
Qed.

Lemma copy_init_headers_Thrown (init : option RequestInit) (e : jsstring) :
  copy_init_headers init default_headers = Thrown e -> init_headers init = Thrown e.
Proof.
  unfold copy_init_headers, init_headers. destruct (init ≫= headers) as [pairs|];
    [|discriminate].
  destruct (Headers_new Headers_TypeError Headers_init_TypeError (Some pairs));
    cbn [exc_bind]; [discriminate | auto].
Qed.

(** The keys copied from [init.headers] are lower-case and differ from one
    another. *)
Lemma copied_keys (h : Headers) :
  (forall k, k ∈ (assign_all (Headers_entries h) []).*1 -> lower k = k)
  /\ NoDup (assign_all (Headers_entries h) []).*1.
Proof.
  split.
  - intros k Hk. apply keys_assign_all in Hk as [Hk|Hk].
    + apply list_elem_of_fmap in Hk as ([k' v] & -> & Hk).
      now apply Headers_entries_lower in Hk.
    + cbn in Hk. apply elem_of_nil in Hk. contradiction.
  - apply NoDup_assign_all. cbn. apply NoDup_nil_2.
Qed.

Definition content_length_entry (body_ : option jsstring) : list (jsstring * jsstring) :=
  match body_ with
  | Some b => if truthy_string b
              then [(js "Content-Length", number_toString (Z.of_N (byteLength b)))]
              else []
  | None => []
  end.

(** The headers object handed to [lib.request]: the two defaults, one key
    per lower-cased name of [init.headers], then Authorization, Host,
    Connection and, with a body, Content-Length. *)
Lemma reqOptions_headers (u : URL) (method_ token : jsstring)
    (body_ : option jsstring) (h : Headers) :
  ro_headers (reqOptions_for u method_
                (obj_set (js "Authorization") token
                   (default_headers ++ assign_all (Headers_entries h) []))
                body_)
  = default_headers ++ assign_all (Headers_entries h) []
    ++ [(js "Authorization", token); (js "Host", hostname u);
        (js "Connection", js "close")] ++ content_length_entry body_.
Proof.
  destruct (copied_keys h) as [Hlower _].
  set (copied := assign_all (Headers_entries h) []) in *.
  assert (forall k, lower k <> k -> k ∉ default_headers.*1 ->
            k ∉ (default_headers ++ copied).*1) as Hfresh.
  { intros k Hk Hdefault. rewrite fmap_app, elem_of_app. intros [Hin|Hin];
      [contradiction | apply Hk, Hlower, Hin]. }
  assert (forall k, k ∉ default_headers.*1 <->
            k <> js "Content-Type" /\ k <> js "Accept") as Hdefault.
  { intros k. cbn. rewrite !not_elem_of_cons. split; [tauto | intros [? ?]].
    repeat split; try assumption. apply not_elem_of_nil. }
  assert (forall (o : list (jsstring * jsstring)) k v k',
            k' ∉ o.*1 -> k' <> k -> k' ∉ (o ++ [(k, v)]).*1) as Hsnoc.
  { intros o k v k' Ho Hne. rewrite fmap_app, elem_of_app. intros [Hin|Hin];
      [contradiction|]. cbn in Hin. apply list_elem_of_singleton in Hin. contradiction. }
  assert (js "Authorization" ∉ (default_headers ++ copied).*1) as Hauth
    by (apply Hfresh; [differ | apply Hdefault; split; differ]).
  assert (js "Host" ∉ (default_headers ++ copied).*1) as Hhost
    by (apply Hfresh; [differ | apply Hdefault; split; differ]).
  assert (js "Connection" ∉ (default_headers ++ copied).*1) as Hconn
    by (apply Hfresh; [differ | apply Hdefault; split; differ]).
  assert (js "Content-Length" ∉ (default_headers ++ copied).*1) as Hlen
    by (apply Hfresh; [differ | apply Hdefault; split; differ]).
  rewrite (obj_set_fresh _ _ _ Hauth).
  unfold reqOptions_for; cbv zeta; cbn [ro_headers].
  rewrite (obj_set_fresh (js "Host")) by (apply Hsnoc; [exact Hhost | differ]).
  rewrite (obj_set_fresh (js "Connection"))
    by (repeat apply Hsnoc; [exact Hconn | differ | differ]).
  unfold content_length_entry.
  destruct body_ as [b|]; [destruct (truthy_string b)|];
    [rewrite (obj_set_fresh (js "Content-Length"))
       by (repeat apply Hsnoc; [exact Hlen | differ | differ | differ]) | |];
    rewrite <- ?app_assoc; cbn [app]; rewrite ?app_nil_r; reflexivity.
Qed.

(** A header of the store, by its lower-case name (other than set-cookie):
    the defaults, over them the header of [init], over them the headers the
    plugin sets. *)
Lemma header_store (u : URL) (method_ token : jsstring)
    (body_ : option jsstring) (h : Headers) (name : jsstring) :
  lower name = name -> name <> js "set-cookie" ->
  ClientRequest_headers
    (ro_headers (reqOptions_for u method_
                   (obj_set (js "Authorization") token
                      (default_headers ++ assign_all (Headers_entries h) []))
                   body_))
  !! name
  = fold_left setHeader
      ([(js "Authorization", token); (js "Host", hostname u);
        (js "Connection", js "close")] ++ content_length_entry body_)
      (match Headers_get name h with
       | Some v => <[name := v]> (ClientRequest_headers default_headers)
       | None => ClientRequest_headers default_headers
       end)
    !! name.
Proof.
  intros Hlower Hcookie. rewrite reqOptions_headers.
  rewrite ClientRequest_headers_app, fold_left_app.
  apply fold_setHeader_agree.
  destruct (copied_keys h) as [Hkeys Hnd].
  rewrite fold_setHeader_lower by assumption.
  rewrite assoc_assign_all, Headers_entries_last by assumption. cbn [assoc].
  destruct (Headers_get name h) as [v|].
  - now rewrite lookup_insert_eq.
  - reflexivity.
Qed.

(** What [dymiumFetch] has sent when it returns a request. *)
Lemma dymiumFetch_Normal (fs : FileSystem) (input : RequestInfo)
    (init : option RequestInit) (req : OutgoingRequest) :
  snd (dymiumFetch fs input init) = Normal req ->
  exists u h,
    parse_input input = Normal u
    /\ truthy (snd (getDymiumToken fs)) = true
    /\ init_headers init = Normal h
    /\ let options :=
         reqOptions_for u (method_or_GET init)
           (obj_set (js "Authorization")
              (js "Bearer " ++ template (snd (getDymiumToken fs)))
              (default_headers ++ assign_all (Headers_entries h) []))
           (body_string init) in
       ClientRequest_accepts options (has_body (body_string init)) = true
       /\ reqOptions req = options
       /\ sent_headers req = ClientRequest_sends options (has_body (body_string init))
       /\ written req = if has_body (body_string init) then body_string init else None.
Proof.
  unfold dymiumFetch.
  destruct (getDymiumToken fs) as [lines token]; cbn [snd].
  destruct (truthy token); cbn [negb snd]; [|discriminate].
  destruct (parse_input input) as [u|e]; cbn [snd]; [|discriminate].
  destruct (copy_init_headers init default_headers) as [o|e] eqn:Hcopy; cbn [snd];
    [|discriminate].
  apply copy_init_headers_Normal in Hcopy as (h & Hh & ->).
  unfold http11Request. cbv zeta. cbn [snd].
  destruct (ClientRequest_accepts _ _) eqn:Haccepts; [|discriminate].
  intros H. injection H as <-. exists u, h. cbv zeta. cbn.
  repeat split; try reflexivity; assumption.
Qed.


(** The header the request carries under a lower-case name, other than
    set-cookie, Content-Length and Transfer-Encoding. *)
Lemma dymiumFetch_sent (u : URL) (method_ token : jsstring) (body_ : option jsstring)
    (h : Headers) (wrote : bool) (name : jsstring) :
  lower name = name -> name <> js "set-cookie" ->
  name <> js "content-length" -> name <> js "transfer-encoding" ->
  ClientRequest_sends
    (reqOptions_for u method_
       (obj_set (js "Authorization") token
          (default_headers ++ assign_all (Headers_entries h) []))
       body_) wrote
  !! name
  = fold_left setHeader
      ([(js "Authorization", token); (js "Host", hostname u);
        (js "Connection", js "close")] ++ content_length_entry body_)
      (match Headers_get name h with
       | Some v => <[name := v]> (ClientRequest_headers default_headers)
       | None => ClientRequest_headers default_headers
       end)
    !! name.
Proof.
  intros Hlower Hcookie Hlength Hencoding.
  rewrite ClientRequest_sends_other by assumption. now apply header_store.
Qed.


(** *** The session tracker *)

(** [ms] is a difference of two [Date.now()] values.  On a safe integer the
    arithmetic of doubles is that of integers: the quotient [ms / 1000] is at
    least 1/1000 away from the next integer above it, which is more than
    half the distance of two neighbouring doubles of its size, so
    [Math.floor] of the rounded quotient is the floor of the exact one.  What
    the function makes of any other number is [formatDuration_unsafe]. *)
Definition formatDuration (ms : Z) : jsstring :=
  if negb (isSafeInteger ms) then formatDuration_unsafe ms
  else if (ms <? 1000)%Z then number_toString ms ++ js "ms"
  else
    let seconds := (ms / 1000)%Z in
    if (seconds <? 60)%Z then number_toString seconds ++ js "s"
    else
      let minutes := (seconds / 60)%Z in
      let remainingSeconds := (seconds mod 60)%Z in
      number_toString minutes ++ js "m " ++ number_toString remainingSeconds ++ js "s".

(** The one module-level [sessionState] as the module is loaded. *)
Definition sessionState0 : SessionState :=
  {| requestStartTime := None; lastStatus := JNull; isProcessing := false |}.

Definition time_truthy (t : option Z) : bool :=
  match t with
  | Some n => negb (n =? 0)%Z
  | None => false
  end.

(** [a || b] on values. *)
Definition or_else (a b : option (Json jsstring)) : option (Json jsstring) :=
  if truthy a then a else b.

(** The auth [loader], called at time [now]: log lines and the new state
    (its result, [apiKey: ""] and [fetch: dymiumFetch], does not depend on
    anything). *)
Definition loader (now : Z) (provider : option (Json jsstring)) (st : SessionState)
    : list jsstring * SessionState :=
  ([js "Loader called for provider: "
      ++ template (or_else (opt_member (js "id") provider) provider)],
   {| requestStartTime := Some now;
      lastStatus := JStr (js "connecting");
      isProcessing := true |}).

Record Event : Type := {
  type : jsstring;
  properties : option (Json jsstring)
}.

(** The [event] hook at time [now]: log lines, the new state, and the
    TypeError text when the handler throws. *)
Definition event (now : Z) (ev : Event) (st : SessionState)
    : list jsstring * SessionState * option jsstring :=
  let eventType := type ev in
  let props := or_else (properties ev) (Some (JObj [])) in
  if decide (eventType = js "session.status") then
    let status := default JNull (or_else (opt_member (js "status") props)
                                   (Some (JStr (js "unknown")))) in
    ([js "Session status: " ++ template (Some status)],
     {| requestStartTime := requestStartTime st;
        lastStatus := status;
        isProcessing := isProcessing st |},
     None)
  else if decide (eventType = js "session.idle") then
    let duration := (now - default 0 (requestStartTime st))%Z in
    (if time_truthy (requestStartTime st)
     then [js "Session completed in " ++ formatDuration duration] else [],
     {| requestStartTime :=
          if time_truthy (requestStartTime st) then None else requestStartTime st;
        lastStatus := JStr (js "idle");
        isProcessing := false |},
     None)
  else if decide (eventType = js "session.error") then
    let duration := (now - default 0 (requestStartTime st))%Z in
    ([js "Session error: " ++ JSON_stringify (default JNull props)]
       ++ (if time_truthy (requestStartTime st)
           then [js "Session failed after " ++ formatDuration duration] else []),
     {| requestStartTime :=
          if time_truthy (requestStartTime st) then None else requestStartTime st;
        lastStatus := JStr (js "error");
        isProcessing := false |},
     None)
  else if decide (eventType = js "message.part.updated") then
    let part := opt_member (js "part") props in
    if strict_eq_string (opt_member (js "type") part) (js "reasoning")
    then
      match opt_member (js "reasoning") part with
      | None | Some JNull =>
          ([js "Reasoning update: " ++ js "undefined" ++ js "..."], st, None)
      | Some (JStr reasoning) =>
          ([js "Reasoning update: " ++ take 100 reasoning ++ js "..."], st, None)
      | Some _ => ([], st, Some TypeError_text)   (* [substring] is no function *)
      end
    else ([], st, None)
  else if startsWith eventType (js "session.") || startsWith eventType (js "message.")
  then ([js "Event: " ++ eventType], st, None)
  else ([], st, None).

(** *** Several requests in one process *)

Inductive Action : Type :=
| CallLoader (provider : option (Json jsstring))
| Deliver (ev : Event).

(** One thing that happens: for which request, when, and what. *)
Record Step : Type := {
  request_of : nat;
  at_time : Z;
  action : Action
}.

(** What a step lets an observer see: the log lines and the error thrown. *)
Definition Seen : Type := list jsstring * option jsstring.

Definition handle (s : Step) (st : SessionState) : Seen * SessionState :=
  match action s with
  | CallLoader provider =>
      let (lines, st') := loader (at_time s) provider st in ((lines, None), st')
  | Deliver ev =>
      let '(lines, st', err) := event (at_time s) ev st in ((lines, err), st')
  end.

(** The steps run one after the other on the shared state; what is seen of
    request [r]. *)
Fixpoint seen_of (r : nat) (trace : list Step) (st : SessionState) : list Seen :=
  match trace with
  | [] => []
  | s :: rest =>
      let (out, st') := handle s st in
      if decide (request_of s = r)
      then out :: seen_of r rest st'
      else seen_of r rest st'
  end.

Definition alone (r : nat) (trace : list Step) : list Step :=
  filter (fun s => request_of s = r) trace.

(** What is seen of every request is what is seen of it when served alone. *)
Definition requests_do_not_interfere (trace : list Step) : Prop :=
  forall r, seen_of r trace sessionState0 = seen_of r (alone r trace) sessionState0.

(** The actions that read or write [sessionState]. *)
(** The state after the steps of a trace, run one after the other. *)
Definition state_after (trace : list Step) (st : SessionState) : SessionState :=
  fold_left (fun st s => snd (handle s st)) trace st.

(** The loader starts the clock ... *)
Definition starts_clock (a : Action) : bool :=
  match a with
  | CallLoader _ => true
  | Deliver _ => false
  end.

(** ... and session.idle and session.error stop it. *)
Definition stops_clock (a : Action) : bool :=
  match a with
  | CallLoader _ => false
  | Deliver ev =>
      bool_decide (type ev = js "session.idle")
      || bool_decide (type ev = js "session.error")
  end.

Lemma event_keeps_stopped_clock (now : Z) (ev : Event) (st : SessionState) :
  time_truthy (requestStartTime st) = false ->
  time_truthy (requestStartTime (snd (fst (event now ev st)))) = false.
Proof.
  intros Hst. unfold event.
  destruct (decide (type ev = js "session.status")); [exact Hst|].
  destruct (decide (type ev = js "session.idle"));
    [cbn [fst snd requestStartTime]; now rewrite Hst|].
  destruct (decide (type ev = js "session.error"));
    [cbn [fst snd requestStartTime]; now rewrite Hst|].
  destruct (decide (type ev = js "message.part.updated")).
  - destruct (strict_eq_string _ _); [|exact Hst].
    destruct (opt_member (js "reasoning") _) as [[| | | | |]|]; exact Hst.
  - destruct (startsWith _ _ || startsWith _ _); exact Hst.
Qed.

Lemma event_stops_clock (now : Z) (ev : Event) (st : SessionState) :
  stops_clock (Deliver ev) = true ->
  time_truthy (requestStartTime (snd (fst (event now ev st)))) = false.
Proof.
  cbn [stops_clock]. intros Hstops. apply orb_true_iff in Hstops.
  unfold event.
  destruct (decide (type ev = js "session.status")) as [Hstatus|_].
  { rewrite Hstatus in Hstops. destruct Hstops as [H|H];
      apply bool_decide_eq_true in H; vm_compute in H; discriminate H. }
  destruct (decide (type ev = js "session.idle")) as [_|Hidle].
  { cbn [fst snd requestStartTime].
    destruct (time_truthy (requestStartTime st)) eqn:Hst; [reflexivity | exact Hst]. }
  destruct (decide (type ev = js "session.error")) as [_|Herror].
  { cbn [fst snd requestStartTime].
    destruct (time_truthy (requestStartTime st)) eqn:Hst; [reflexivity | exact Hst]. }
  destruct Hstops as [H|H]; apply bool_decide_eq_true in H; contradiction.
Qed.


Lemma handle_keeps_running_clock (s : Step) (st : SessionState) :
  starts_clock (action s) = false -> stops_clock (action s) = false ->
  requestStartTime (snd (handle s st)) = requestStartTime st.
Proof.
  unfold handle. destruct (action s) as [provider|ev]; [discriminate|].
  intros _ Hstops. cbn [stops_clock] in Hstops.
  apply orb_false_iff in Hstops as [Hidle Herror].
  apply bool_decide_eq_false in Hidle, Herror.
  destruct (event (at_time s) ev st) as [[lines st'] err] eqn:Hevent.
  cbn [snd]. unfold event in Hevent.
  destruct (decide (type ev = js "session.status"));
    [injection Hevent as _ <- _; reflexivity|].
  destruct (decide (type ev = js "session.idle")); [contradiction|].
  destruct (decide (type ev = js "session.error")); [contradiction|].
  destruct (decide (type ev = js "message.part.updated")).
  - destruct (strict_eq_string _ _); [|injection Hevent as _ <- _; reflexivity].
    destruct (opt_member (js "reasoning") _) as [[| | | | |]|];
      injection Hevent as _ <- _; reflexivity.
  - destruct (startsWith _ _ || startsWith _ _);
      injection Hevent as _ <- _; reflexivity.
Qed.

Lemma state_after_keeps_running_clock (trace : list Step) (st : SessionState) :
  Forall (fun s => starts_clock (action s) = false
                   /\ stops_clock (action s) = false) trace ->
  requestStartTime (state_after trace st) = requestStartTime st.
Proof.
  unfold state_after. intros Htrace. revert st.
  induction Htrace as [|s trace [Hstart Hstop] _ IH]; intros st; [reflexivity|].
  cbn [fold_left]. rewrite IH. now apply handle_keeps_running_clock.
Qed.

(** *** Whose clock is running *)

(** Request [r] keeps its clock along a trace: at each of its session.idle
    and session.error events, either the clock that is running was started
    by its own loader call ([owner] is the request of the last step that
    started or stopped the clock, if it started it), or no clock is running
    and none would be running had the request been served alone ([own]). *)
Fixpoint keeps_its_clock (r : nat) (owner : option nat) (own : bool)
    (trace : list Step) : bool :=
  match trace with
  | [] => true
  | s :: rest =>
      let mine := bool_decide (request_of s = r) in
      let ok :=
        if mine && stops_clock (action s)
        then bool_decide (owner = Some r)
             || (bool_decide (owner = None) && negb own)
        else true in
      let owner' :=
        if starts_clock (action s) then Some (request_of s)
        else if stops_clock (action s) then None
        else owner in
      let own' :=
        if mine
        then if starts_clock (action s) then true
             else if stops_clock (action s) then false
             else own
        else own in
      ok && keeps_its_clock r owner' own' rest
  end.

(** Two states show the same clock: the same start time, or no clock
    running in either. *)
Definition same_clock (st st' : SessionState) : Prop :=
  requestStartTime st = requestStartTime st'
  \/ (time_truthy (requestStartTime st) = false
      /\ time_truthy (requestStartTime st') = false).

(** What a step lets one see depends on [sessionState] through the clock
    only ... *)
Lemma handle_seen_same_clock (s : Step) (st st' : SessionState) :
  same_clock st st' -> fst (handle s st) = fst (handle s st').
Proof.
  intros Hsame. unfold handle. destruct (action s) as [provider|ev]; [reflexivity|].
  unfold event.
  destruct (decide (type ev = js "session.status")); [reflexivity|].
  destruct (decide (type ev = js "session.idle")).
  { destruct Hsame as [->|[-> ->]]; reflexivity. }
  destruct (decide (type ev = js "session.error")).
  { destruct Hsame as [->|[-> ->]]; reflexivity. }
  destruct (decide (type ev = js "message.part.updated")).
  - destruct (strict_eq_string _ _); [|reflexivity].
    destruct (opt_member (js "reasoning") _) as [[| | | | |]|]; reflexivity.
  - destruct (startsWith _ _ || startsWith _ _); reflexivity.
Qed.

(** ... and not at all unless the step stops the clock. *)
Lemma handle_seen_unless_stops (s : Step) (st st' : SessionState) :
  stops_clock (action s) = false -> fst (handle s st) = fst (handle s st').
Proof.
  unfold handle. destruct (action s) as [provider|ev]; [reflexivity|].
  cbn [stops_clock]. intros Hstops.
  apply orb_false_iff in Hstops as [Hidle Herror].
  apply bool_decide_eq_false in Hidle, Herror.
  unfold event.
  destruct (decide (type ev = js "session.status")); [reflexivity|].
  destruct (decide (type ev = js "session.idle")); [contradiction|].
  destruct (decide (type ev = js "session.error")); [contradiction|].
  destruct (decide (type ev = js "message.part.updated")).
  - destruct (strict_eq_string _ _); [|reflexivity].
    destruct (opt_member (js "reasoning") _) as [[| | | | |]|]; reflexivity.
  - destruct (startsWith _ _ || startsWith _ _); reflexivity.
Qed.

Lemma handle_starts_clock (s : Step) (st : SessionState) :
  starts_clock (action s) = true ->
  requestStartTime (snd (handle s st)) = Some (at_time s).
Proof.
  unfold handle. destruct (action s) as [provider|ev]; [reflexivity | discriminate].
Qed.

Lemma handle_stops_clock (s : Step) (st : SessionState) :
  stops_clock (action s) = true ->
  time_truthy (requestStartTime (snd (handle s st))) = false.
Proof.
  unfold handle. destruct (action s) as [provider|ev]; [discriminate|].
  intros Hstops. pose proof (event_stops_clock (at_time s) ev st Hstops) as Hstop.
  destruct (event (at_time s) ev st) as [[lines st'] err]. exact Hstop.
Qed.

Lemma handle_keeps_stopped_clock (s : Step) (st : SessionState) :
  starts_clock (action s) = false ->
  time_truthy (requestStartTime st) = false ->
  time_truthy (requestStartTime (snd (handle s st))) = false.
Proof.
  unfold handle. destruct (action s) as [provider|ev]; [discriminate|].
  intros _ Hst. pose proof (event_keeps_stopped_clock (at_time s) ev st Hst) as Hkeep.
  destruct (event (at_time s) ev st) as [[lines st'] err]. exact Hkeep.
Qed.

(** The clock after a step depends on the state through the clock only. *)
Lemma handle_same_clock (s : Step) (st st' : SessionState) :
  requestStartTime st = requestStartTime st' ->
  requestStartTime (snd (handle s st)) = requestStartTime (snd (handle s st')).
Proof.
  intros Hsame.
  destruct (starts_clock (action s)) eqn:Hstarts;
    [now rewrite !handle_starts_clock|].
  destruct (stops_clock (action s)) eqn:Hstops;
    [|now rewrite !handle_keeps_running_clock].
  unfold handle. destruct (action s) as [provider|ev]; [discriminate|].
  cbn [stops_clock] in Hstops. apply orb_true_iff in Hstops.
  unfold event.
  destruct (decide (type ev = js "session.status")) as [Hstatus|_].
  { rewrite Hstatus in Hstops. destruct Hstops as [H|H];
      apply bool_decide_eq_true in H; vm_compute in H; discriminate H. }
  destruct (decide (type ev = js "session.idle"));
    [cbn [fst snd requestStartTime]; now rewrite Hsame|].
  destruct (decide (type ev = js "session.error"));
    [cbn [fst snd requestStartTime]; now rewrite Hsame|].
  destruct Hstops as [H|H]; apply bool_decide_eq_true in H; contradiction.
Qed.

(** Along a trace on which request [r] keeps its clock, what is seen of it
    is what is seen of it alone, from any two states that agree as [owner]
    and [own] tell. *)
Lemma seen_of_keeps_its_clock (r : nat) (trace : list Step) :
  forall (owner : option nat) (own : bool) (st st' : SessionState),
    keeps_its_clock r owner own trace = true ->
    (owner = Some r -> requestStartTime st = requestStartTime st') ->
    (owner = None -> time_truthy (requestStartTime st) = false) ->
    (own = false -> time_truthy (requestStartTime st') = false) ->
    seen_of r trace st = seen_of r (alone r trace) st'.
Proof.
  induction trace as [|s trace IH]; intros owner own st st' Hkeeps Howner Hnone Hown;
    [reflexivity|].
  cbn [keeps_its_clock] in Hkeeps. cbv zeta in Hkeeps.
  apply andb_true_iff in Hkeeps as [Hok Hkeeps].
  unfold alone. rewrite filter_cons. fold (alone r trace).
  cbn [seen_of].
  destruct (handle s st) as [out st2] eqn:Hhandle.
  assert (st2 = snd (handle s st)) as -> by now rewrite Hhandle.
  assert (out = fst (handle s st)) as -> by now rewrite Hhandle.
  clear Hhandle.
  destruct (decide (request_of s = r)) as [Hr|Hr].
  - rewrite (bool_decide_eq_true_2 _ Hr) in Hok, Hkeeps. cbn [andb] in Hok.
    cbn [seen_of].
    destruct (handle s st') as [out' st2'] eqn:Hhandle'.
    assert (st2' = snd (handle s st')) as -> by now rewrite Hhandle'.
    assert (out' = fst (handle s st')) as -> by now rewrite Hhandle'.
    clear Hhandle'.
    destruct (decide (request_of s = r)); [|contradiction].
    destruct (starts_clock (action s)) eqn:Hstarts.
    + assert (stops_clock (action s) = false) as Hstops
        by (destruct (action s); [reflexivity | discriminate Hstarts]).
      f_equal; [now apply handle_seen_unless_stops|].
      apply (IH _ _ _ _ Hkeeps).
      * intros _. now rewrite !handle_starts_clock.
      * discriminate.
      * discriminate.
    + destruct (stops_clock (action s)) eqn:Hstops.
      * assert (same_clock st st') as Hsame.
        { apply orb_true_iff in Hok as [Hok|Hok].
          - apply bool_decide_eq_true in Hok. left. now apply Howner.
          - apply andb_true_iff in Hok as [Hok Hnot].
            apply bool_decide_eq_true in Hok. apply negb_true_iff in Hnot.
            right. split; [now apply Hnone | now apply Hown]. }
        f_equal; [now apply handle_seen_same_clock|].
        apply (IH _ _ _ _ Hkeeps).
        -- discriminate.
        -- intros _. now apply handle_stops_clock.
        -- intros _. now apply handle_stops_clock.
      * f_equal; [now apply handle_seen_unless_stops|].
        apply (IH _ _ _ _ Hkeeps); rewrite !handle_keeps_running_clock by assumption;
          assumption.
  - rewrite (bool_decide_eq_false_2 _ Hr) in Hkeeps.
    destruct (starts_clock (action s)) eqn:Hstarts.
    + apply (IH _ _ _ _ Hkeeps).
      * intros Heq. injection Heq as Heq. contradiction.
      * discriminate.
      * exact Hown.
    + destruct (stops_clock (action s)) eqn:Hstops.
      * apply (IH _ _ _ _ Hkeeps).
        -- discriminate.
        -- intros _. now apply handle_stops_clock.
        -- exact Hown.
      * apply (IH _ _ _ _ Hkeeps);
          rewrite ?handle_keeps_running_clock by assumption; assumption.
Qed.

(** C5, as amended.  The plugin keeps one [sessionState], and in it one
    clock, for the whole process: the loader call of any request starts it
    and the session.idle or session.error event of any request reads and
    stops it.  What is seen of a request is what is seen of it when served
    alone whenever, at each of its session.idle and session.error events,
    the clock that is running was started by its own loader call, or no
    clock is running and none would be had the request been served alone.
    The other requests may call the loader and receive events of every kind
    in between. *)
Theorem request_keeping_its_clock_is_undisturbed (r : nat) (trace : list Step) :
  keeps_its_clock r None false trace = true ->
  seen_of r trace sessionState0 = seen_of r (alone r trace) sessionState0.
Proof.
  intros Hkeeps. apply (seen_of_keeps_its_clock r trace None false _ _ Hkeeps).
  - discriminate.
  - reflexivity.
  - reflexivity.
Qed.
(** *** Further properties of the fetch path *)

(** X12.  [getDymiumToken] never throws; it writes a log line exactly when it
    returns null, and a token it returns is truthy. *)
Theorem getDymiumToken_logs_when_null (fs : FileSystem) :
  match snd (getDymiumToken fs) with
  | Some token => truthy (Some token) = true /\ fst (getDymiumToken fs) = []
  | None => exists line, fst (getDymiumToken fs) = [line]
  end.
Proof.
  unfold getDymiumToken.
  destruct (existsSync fs (AUTH_JSON_PATH fs)); simpl; [|eauto].
  destruct (readFileSync fs (AUTH_JSON_PATH fs)) as [content|e]; simpl; [|eauto].
  destruct (JSON_parse content) as [auth|e]; simpl; [|eauto].
  destruct (auth_dymium_key auth) as [key|e]; simpl; [|eauto].
  destruct (truthy key) eqn:Hkey; simpl; [|eauto].
  destruct key as [token|]; [auto | discriminate Hkey].
Qed.

(** X13.  [dymiumFetch] sends a request exactly when [getDymiumToken] returns
    a token, the input is (or parses to) a URL, [new Headers] accepts the
    caller's headers and [http.request] accepts the request; a request sent
    therefore has a token without line breaks or other control characters.
    The token is checked first: without one nothing is sent, nothing more is
    logged, and the error is the fixed "No valid Dymium token available"
    error. *)
Theorem dymiumFetch_sends_only_with_valid_token
    (fs : FileSystem) (input : RequestInfo) (init : option RequestInit) :
  ((exists req, snd (dymiumFetch fs input init) = Normal req)
   <-> truthy (snd (getDymiumToken fs)) = true
       /\ exists u h,
            parse_input input = Normal u
            /\ init_headers init = Normal h
            /\ ClientRequest_accepts
                 (reqOptions_for u (method_or_GET init)
                    (obj_set (js "Authorization")
                       (js "Bearer " ++ template (snd (getDymiumToken fs)))
                       (default_headers ++ assign_all (Headers_entries h) []))
                    (body_string init))
                 (has_body (body_string init)) = true)
  /\ (forall req, snd (dymiumFetch fs input init) = Normal req ->
        forallb valid_header_char (template (snd (getDymiumToken fs))) = true)
  /\ (truthy (snd (getDymiumToken fs)) = true
      \/ dymiumFetch fs input init = (fst (getDymiumToken fs), Thrown no_token_error)).
Proof.
  split; [|split].
  - split.
    + intros [req Hreq].
      apply dymiumFetch_Normal in Hreq as (u & h & Hu & Htoken & Hh & Haccepts & _).
      split; [exact Htoken|]. exists u, h. auto.
    + intros [Htoken (u & h & Hu & Hh & Haccepts)]. unfold dymiumFetch.
      destruct (getDymiumToken fs) as [lines token]; cbn [snd] in *.
      rewrite Htoken, Hu; cbn [negb].
      assert (copy_init_headers init default_headers
              = Normal (default_headers ++ assign_all (Headers_entries h) [])) as ->.
      { destruct (copy_init_headers init default_headers) as [o|e] eqn:Hcopy.
        - apply copy_init_headers_Normal in Hcopy as (h' & Hh' & ->).
          rewrite Hh in Hh'. now injection Hh' as <-.
        - apply copy_init_headers_Thrown in Hcopy. rewrite Hh in Hcopy.
          discriminate Hcopy. }
      unfold http11Request. cbv zeta. rewrite Haccepts. cbn [snd]. eauto.
  - intros req Hreq.
    apply dymiumFetch_Normal in Hreq as (u & h & _ & _ & _ & Haccepts & _).
    unfold ClientRequest_accepts in Haccepts. cbv zeta in Haccepts.
    apply andb_true_iff in Haccepts as [Haccepts _].
    apply andb_true_iff in Haccepts as [_ Hheaders].
    rewrite reqOptions_headers in Hheaders.
    rewrite !forallb_app in Hheaders.
    apply andb_true_iff in Hheaders as [_ Hheaders].
    apply andb_true_iff in Hheaders as [_ Hheaders].
    apply andb_true_iff in Hheaders as [Hheaders _].
    cbn [forallb fst snd] in Hheaders.
    apply andb_true_iff in Hheaders as [Hauth _].
    apply andb_true_iff in Hauth as [_ Hvalue].
    rewrite forallb_app in Hvalue. now apply andb_true_iff in Hvalue as [_ Hvalue].
  - unfold dymiumFetch.
    destruct (getDymiumToken fs) as [lines token]; cbn [fst snd].
    destruct (truthy token); [now left | now right].
Qed.

(** X14.  The request [dymiumFetch] sends carries Authorization
    ["Bearer <token>"], whatever Authorization header the caller supplied. *)
Theorem dymiumFetch_overwrites_Authorization
    (fs : FileSystem) (input : RequestInfo) (init : option RequestInit) :
  match snd (dymiumFetch fs input init) with
  | Normal req =>
      sent_headers req !! js "authorization"
      = Some (js "Bearer " ++ template (snd (getDymiumToken fs)))
  | Thrown _ => True
  end.
Proof.
  destruct (snd (dymiumFetch fs input init)) as [req|e] eqn:Hreq; [|exact I].
  apply dymiumFetch_Normal in Hreq as (u & h & _ & _ & _ & _ & _ & Hsent & _).
  rewrite Hsent, dymiumFetch_sent by (try reflexivity; differ).
  unfold content_length_entry.
  destruct (body_string init) as [b|]; [destruct (truthy_string b)|];
    cbn [app fold_left]; unfold setHeader; cbn [fst snd]; look.
Qed.

(** X15.  The request sent carries the caller's Content-Type and Accept when
    the caller supplied them, and the defaults ["application/json"] and
    ["application/json, text/event-stream"] otherwise. *)
Theorem dymiumFetch_default_headers
    (fs : FileSystem) (input : RequestInfo) (init : option RequestInit) :
  match snd (dymiumFetch fs input init) with
  | Normal req =>
      exists h, init_headers init = Normal h
      /\ sent_headers req !! js "content-type"
         = Some (default (js "application/json") (Headers_get (js "content-type") h))
      /\ sent_headers req !! js "accept"
         = Some (default (js "application/json, text/event-stream")
                   (Headers_get (js "accept") h))
  | Thrown _ => True
  end.
Proof.
  destruct (snd (dymiumFetch fs input init)) as [req|e] eqn:Hreq; [|exact I].
  apply dymiumFetch_Normal in Hreq as (u & h & _ & _ & Hh & _ & _ & Hsent & _).
  exists h. split; [exact Hh|].
  rewrite Hsent, !dymiumFetch_sent by (try reflexivity; differ).
  unfold content_length_entry.
  split.
  - destruct (body_string init) as [b|]; [destruct (truthy_string b)|];
      cbn [app fold_left]; unfold setHeader; cbn [fst snd]; look;
      (destruct (Headers_get (js "content-type") h);
       [apply lookup_insert_eq | reflexivity]).
  - destruct (body_string init) as [b|]; [destruct (truthy_string b)|];
      cbn [app fold_left]; unfold setHeader; cbn [fst snd]; look;
      (destruct (Headers_get (js "accept") h);
       [apply lookup_insert_eq | reflexivity]).
Qed.

Lemma has_header_lookup (name : jsstring) (store : gmap jsstring jsstring) :
  has_header name store = match store !! name with Some _ => true | None => false end.
Proof.
  unfold has_header. destruct (store !! name).
  - apply bool_decide_eq_true_2. eauto.
  - apply bool_decide_eq_false_2, is_Some_None.
Qed.

(** Whether a request ended with nothing written gets ["Content-Length: 0"]
    from Node: its method takes a body by default and the caller has given
    no Transfer-Encoding, no Expect other than the empty one, and no
    Trailer. *)
Definition ends_with_Content_Length_0 (method_ : jsstring) (h : Headers) : bool :=
  chunked_by_default method_
  && match Headers_get (js "transfer-encoding") h with
     | Some _ => false
     | None => true
     end
  && match Headers_get (js "expect") h with
     | Some v => negb (truthy_string v)
     | None => true
     end
  && match Headers_get (js "trailer") h with
     | Some _ => false
     | None => true
     end.

(** X16.  With a non-empty body, the body is written and Content-Length is
    its length in UTF-8 bytes, whatever the caller supplied.  Without one,
    nothing is written, and Content-Length is the caller's if the caller
    supplied one; otherwise it is the ["0"] Node adds to a request whose
    method takes a body by default (POST, PUT, PATCH, ...) when the caller
    has given no Transfer-Encoding, Expect or Trailer header, and there is
    none in the other cases (GET, HEAD, ...). *)
Theorem dymiumFetch_Content_Length
    (fs : FileSystem) (input : RequestInfo) (init : option RequestInit) :
  match snd (dymiumFetch fs input init) with
  | Normal req =>
      match body_string init with
      | Some (c :: b) =>
          written req = Some (c :: b)
          /\ sent_headers req !! js "content-length"
             = Some (number_toString (Z.of_N (byteLength (c :: b))))
      | _ =>
          written req = None
          /\ exists h, init_headers init = Normal h
             /\ sent_headers req !! js "content-length"
                = match Headers_get (js "content-length") h with
                  | Some v => Some v
                  | None =>
                      if ends_with_Content_Length_0 (method_or_GET init) h
                      then Some (js "0") else None
                  end
      end
  | Thrown _ => True
  end.
Proof.
  destruct (snd (dymiumFetch fs input init)) as [req|e] eqn:Hreq; [|exact I].
  apply dymiumFetch_Normal in Hreq
    as (u & h & _ & _ & Hh & _ & _ & Hsent & Hwritten).
  cbv zeta in Hsent. rewrite Hsent, Hwritten. clear Hsent Hwritten.
  unfold ClientRequest_sends. cbv zeta.
  change (ro_method (reqOptions_for u (method_or_GET init) ?o ?b))
    with (method_or_GET init).
  set (token := js "Bearer " ++ template (snd (getDymiumToken fs))).
  assert (forall name, lower name = name -> name <> js "set-cookie" ->
            name <> js "authorization" -> name <> js "host" ->
            name <> js "connection" -> name <> js "content-type" ->
            name <> js "accept" ->
            content_length_entry (body_string init) = [] ->
            ClientRequest_headers
              (ro_headers (reqOptions_for u (method_or_GET init)
                             (obj_set (js "Authorization") token
                                (default_headers ++ assign_all (Headers_entries h) []))
                             (body_string init))) !! name
            = Headers_get name h) as Hcaller.
  { intros name Hlower Hcookie Hauth Hhost Hconn Htype Haccept Hentry.
    rewrite header_store, Hentry by assumption.
    cbn [app fold_left]. unfold setHeader; cbn [fst snd].
    change (lower (js "Authorization")) with (js "authorization").
    change (lower (js "Host")) with (js "host").
    change (lower (js "Connection")) with (js "connection").
    rewrite !lookup_insert_ne by congruence.
    destruct (Headers_get name h); [apply lookup_insert_eq|].
    unfold ClientRequest_headers, default_headers. cbn [fold_left].
    unfold setHeader; cbn [fst snd].
    change (lower (js "Content-Type")) with (js "content-type").
    change (lower (js "Accept")) with (js "accept").
    rewrite !lookup_insert_ne by congruence. apply lookup_empty. }
  set (store := ClientRequest_headers _) in *.
  assert (forall body_, body_string init = body_ -> has_body body_ = false ->
            content_length_entry (body_string init) = []) as Hentry.
  { intros body_ -> Hbody. unfold content_length_entry, has_body in *.
    destruct body_ as [b|]; [now rewrite Hbody | reflexivity]. }
  assert (forall body_, body_string init = body_ -> has_body body_ = false ->
            fold_left setHeader
              (implicit_headers (method_or_GET init) store false) store
            !! js "content-length"
            = match Headers_get (js "content-length") h with
              | Some v => Some v
              | None =>
                  if ends_with_Content_Length_0 (method_or_GET init) h
                  then Some (js "0") else None
              end) as Hnone.
  { intros body_ Hbody Hempty. specialize (Hentry body_ Hbody Hempty).
    unfold implicit_headers, expects, ends_with_Content_Length_0.
    rewrite !has_header_lookup.
    rewrite !Hcaller by (try reflexivity; try exact Hentry; differ).
    destruct (Headers_get (js "content-length") h) as [v|] eqn:Hlength.
    { cbn [orb fold_left]. rewrite Hcaller by (try reflexivity; try exact Hentry; differ).
      exact Hlength. }
    assert (store !! js "content-length" = None) as Hstore
      by (rewrite Hcaller by (try reflexivity; try exact Hentry; differ);
          exact Hlength).
    destruct (Headers_get (js "transfer-encoding") h);
      [cbn [orb fold_left]; now rewrite !andb_false_r, ?andb_false_l|].
    cbn [orb]. destruct (chunked_by_default (method_or_GET init));
      cbn [negb andb]; [|exact Hstore].
    destruct (Headers_get (js "expect") h) as [v|].
    - destruct (truthy_string v); cbn [orb negb andb fold_left];
        unfold setHeader; cbn [fst snd].
      + now rewrite lookup_insert_ne by differ.
      + destruct (Headers_get (js "trailer") h); cbn [fold_left];
          unfold setHeader; cbn [fst snd];
          [now rewrite lookup_insert_ne by differ | apply lookup_insert_eq].
    - cbn [orb].
      destruct (Headers_get (js "trailer") h); cbn [fold_left];
        unfold setHeader; cbn [fst snd];
        [now rewrite lookup_insert_ne by differ | apply lookup_insert_eq]. }
  destruct (body_string init) as [[|c b]|] eqn:Hbody.
  - split; [reflexivity|]. exists h. split; [exact Hh|].
    now apply (Hnone (Some [])).
  - assert (has_body (Some (c :: b)) = true) as ->.
    { unfold has_body, truthy_string. now rewrite bool_decide_eq_false_2 by discriminate. }
    split; [reflexivity|].
    assert (store !! js "content-length"
            = Some (number_toString (Z.of_N (byteLength (c :: b))))) as Hstore.
    { unfold store. rewrite header_store by (try reflexivity; differ).
      unfold content_length_entry, truthy_string.
      rewrite bool_decide_eq_false_2 by discriminate. cbn [negb app fold_left].
      unfold setHeader; cbn [fst snd]. apply lookup_insert_eq. }
    unfold implicit_headers. rewrite has_header_lookup, Hstore. cbn [orb fold_left].
    exact Hstore.
  - split; [reflexivity|]. exists h. split; [exact Hh|].
    now apply (Hnone None).
Qed.

(** *** Further properties of the session tracker *)

(** X17.  On a safe integer, as a difference of two [Date.now()] values is,
    [formatDuration] rounds down to whole seconds: below one second it shows
    the milliseconds; below one minute the whole seconds; from one minute on
    the whole minutes (at least one, never turned into hours) and the
    remaining seconds, which stay below 60. *)
Theorem formatDuration_rounds_down (ms : Z) :
  isSafeInteger ms = true ->
  ((ms < 1000)%Z /\ formatDuration ms = number_toString ms ++ js "ms")
  \/ (exists s : Z,
        (1 <= s < 60)%Z /\ (s * 1000 <= ms < (s + 1) * 1000)%Z
        /\ formatDuration ms = number_toString s ++ js "s")
  \/ (exists m s : Z,
        (1 <= m)%Z /\ (0 <= s < 60)%Z
        /\ ((m * 60 + s) * 1000 <= ms < (m * 60 + s + 1) * 1000)%Z
        /\ formatDuration ms
           = number_toString m ++ js "m " ++ number_toString s ++ js "s").
Proof.
  intros Hsafe. unfold formatDuration. rewrite Hsafe. cbn [negb].
  destruct (Z.ltb_spec ms 1000) as [Hms|Hms]; [now left | right].
  cbv zeta. destruct (Z.ltb_spec (ms / 1000) 60) as [Hs|Hs].
  - left. exists (ms / 1000)%Z. split; [|split; [|reflexivity]].
    + split; [apply Z.div_le_lower_bound; lia | exact Hs].
    + pose proof (Z.div_mod ms 1000 ltac:(lia)).
      pose proof (Z.mod_pos_bound ms 1000 ltac:(lia)). lia.
  - right. exists (ms / 1000 / 60)%Z, ((ms / 1000) mod 60)%Z.
    split; [apply Z.div_le_lower_bound; lia|].
    split; [apply Z.mod_pos_bound; lia|].
    split; [|reflexivity].
    pose proof (Z.div_mod ms 1000 ltac:(lia)).
    pose proof (Z.mod_pos_bound ms 1000 ltac:(lia)).
    pose proof (Z.div_mod (ms / 1000) 60 ltac:(lia)). lia.
Qed.

(** X18.  The [event] hook throws for one kind of event only: a
    message.part.updated whose part is of type "reasoning" and whose
    [reasoning] is neither a string nor null nor missing.  It then has
    logged nothing and has left [sessionState] as it was. *)
Theorem event_throws_only_on_part_update
    (now : Z) (ev : Event) (st : SessionState) (e : jsstring) :
  snd (event now ev st) = Some e ->
  type ev = js "message.part.updated"
  /\ (exists reasoning,
        opt_member (js "reasoning")
          (opt_member (js "part") (or_else (properties ev) (Some (JObj []))))
        = Some reasoning
        /\ reasoning <> JNull /\ forall s, reasoning <> JStr s)
  /\ event now ev st = ([], st, Some TypeError_text).
Proof.
  unfold event.
  destruct (decide (type ev = js "session.status")); [discriminate|].
  destruct (decide (type ev = js "session.idle")); [discriminate|].
  destruct (decide (type ev = js "session.error")); [discriminate|].
  destruct (decide (type ev = js "message.part.updated")) as [Htype|_].
  - destruct (strict_eq_string _ _); [|discriminate].
    destruct (opt_member (js "reasoning") _) as [reasoning|]; [|discriminate].
    destruct reasoning; try discriminate; intros _;
      (split; [exact Htype|]); (split; [|reflexivity]);
      eexists; (split; [reflexivity|]); split; discriminate.
  - destruct (startsWith _ _ || startsWith _ _); discriminate.
Qed.


(** X20.  When the loader is called at time [t0] and the session.idle event
    arrives at time [t1], with only events other than session.idle and
    session.error in between, the hook logs the duration [t1 - t0] and
    resets the state. *)
Theorem loader_then_idle_logs_duration
    (started : Step) (between : list Step) (t1 : Z) (ev : Event) (st : SessionState) :
  starts_clock (action started) = true ->
  at_time started <> 0%Z ->
  Forall (fun s => starts_clock (action s) = false
                   /\ stops_clock (action s) = false) between ->
  type ev = js "session.idle" ->
  event t1 ev (state_after (started :: between) st)
  = ([js "Session completed in " ++ formatDuration (t1 - at_time started)],
     {| requestStartTime := None;
        lastStatus := JStr (js "idle");
        isProcessing := false |},
     None).
Proof.
  intros Hstarted Ht0 Hbetween Hev.
  assert (requestStartTime (state_after (started :: between) st)
          = Some (at_time started)) as Hclock.
  { unfold state_after. cbn [fold_left].
    rewrite (state_after_keeps_running_clock between _ Hbetween).
    unfold handle. destruct (action started) as [provider|ev0]; [|discriminate Hstarted].
    reflexivity. }
  unfold event. rewrite Hev.
  destruct (decide (js "session.idle" = js "session.status")) as [H|_];
    [vm_compute in H; discriminate H|].
  destruct (decide (js "session.idle" = js "session.idle")); [|contradiction].
  rewrite Hclock. cbn [time_truthy default].
  apply Z.eqb_neq in Ht0. now rewrite Ht0.
Qed.
(** *** The two plugins on the same auth.json *)

(** X23.  When auth.json holds a non-empty string as [dymium.key],
    [getDymiumToken] returns it as it is, while [resolveToken] of the token
    plugin, finding no token file, returns it trimmed, or null when nothing
    but white space is left: the two agree only on a key with no white space
    around it. *)
Theorem getDymiumToken_does_not_trim
    (fs : FileSystem) (content : jsstring) (auth : Json jsstring)
    (k e : jsstring) :
  readFileSync fs (TokenPlugin.tokenPath fs) = Thrown e ->
  existsSync fs (AUTH_JSON_PATH fs) = true ->
  readFileSync fs (AUTH_JSON_PATH fs) = Normal content ->
  JSON_parse content = Normal auth ->
  TokenPlugin.dymium_key auth = Some (JStr k) ->
  k <> [] ->
  getDymiumToken fs = ([], Some (JStr k))
  /\ TokenPlugin.resolveToken JSON_parse fs
     = Normal (TokenPlugin.nonempty (Some (trim k))).
Proof.
  intros Hfile Hexists Hread Hparse Hkey Hk. split.
  - unfold getDymiumToken. rewrite Hexists, Hread. cbn [negb exc_bind].
    rewrite Hparse. cbn [exc_bind].
    assert (auth_dymium_key auth = Normal (Some (JStr k))) as ->.
    { unfold TokenPlugin.dymium_key in Hkey. unfold auth_dymium_key.
      destruct auth; try discriminate Hkey. now rewrite <- Hkey. }
    cbn [exc_bind truthy]. rewrite TokenPlugin.truthy_string_nonempty.
    destruct k; [contradiction | reflexivity].
  - rewrite TokenPlugin.resolveToken_unfolded.
    unfold TokenPlugin.resolveToken_in_words, TokenPlugin.token_file,
      TokenPlugin.auth_key.
    rewrite Hfile. cbn [TokenPlugin.nonempty].
    change (TokenPlugin.authPath fs) with (AUTH_JSON_PATH fs).
    now rewrite Hread, Hparse, Hkey.
Qed.

End Plugin.

End AuthPlugin.

(** ** The session logger (src/index.ts, first version of the plugin)

    The first version of the plugin has no auth loader: its [event] hook is
    the one of the second version with one more case, session.created,
    which starts the clock.  [sessionState] and [formatDuration] are the
    same in both. *)

Module SessionLogger.

(** Settles a test on the event type once the type is known. *)
Ltac decide_type :=
  match goal with
  | |- context [decide (js ?a = js ?b)] =>
      let H := fresh in
      destruct (decide (js a = js b)) as [H|H];
      [try (vm_compute in H; discriminate H)
      |try (exfalso; apply H; reflexivity)]
  end.

Section Plugin.

Variable ToString_object : Json jsstring -> jsstring.
Variable JSON_stringify : Json jsstring -> jsstring.
Variable TypeError_text : jsstring.
Variable formatDuration_unsafe : Z -> jsstring.

Definition event (now : Z) (ev : AuthPlugin.Event) (st : SessionState)
    : list jsstring * SessionState * option jsstring :=
  let eventType := AuthPlugin.type ev in
  let props := AuthPlugin.or_else (AuthPlugin.properties ev) (Some (JObj [])) in
  if decide (eventType = js "session.status") then
    let status :=
      default JNull (AuthPlugin.or_else (opt_member (js "status") props)
                       (Some (JStr (js "unknown")))) in
    ([js "Session status: " ++ AuthPlugin.template ToString_object (Some status)],
     {| requestStartTime := requestStartTime st;
        lastStatus := status;
        isProcessing := isProcessing st |},
     None)
  else if decide (eventType = js "session.idle") then
    let duration := (now - default 0 (requestStartTime st))%Z in
    (if AuthPlugin.time_truthy (requestStartTime st)
     then [js "Session completed in " ++ AuthPlugin.formatDuration formatDuration_unsafe
       duration] else [],
     {| requestStartTime :=
          if AuthPlugin.time_truthy (requestStartTime st)
          then None else requestStartTime st;
        lastStatus := JStr (js "idle");
        isProcessing := false |},
     None)
  else if decide (eventType = js "session.error") then
    let duration := (now - default 0 (requestStartTime st))%Z in
    ([js "Session error: " ++ JSON_stringify (default JNull props)]
       ++ (if AuthPlugin.time_truthy (requestStartTime st)
           then [js "Session failed after " ++ AuthPlugin.formatDuration
             formatDuration_unsafe duration]
           else []),
     {| requestStartTime :=
          if AuthPlugin.time_truthy (requestStartTime st)
          then None else requestStartTime st;
        lastStatus := JStr (js "error");
        isProcessing := false |},
     None)
  else if decide (eventType = js "session.created") then
    ([js "Session created"],
     {| requestStartTime := Some now;
        lastStatus := JStr (js "started");
        isProcessing := true |},
     None)
  else if decide (eventType = js "message.part.updated") then
    let part := opt_member (js "part") props in
    if strict_eq_string (opt_member (js "type") part) (js "reasoning")
    then
      match opt_member (js "reasoning") part with
      | None | Some JNull =>
          ([js "Reasoning update: " ++ js "undefined" ++ js "..."], st, None)
      | Some (JStr reasoning) =>
          ([js "Reasoning update: " ++ take 100 reasoning ++ js "..."], st, None)
      | Some _ => ([], st, Some TypeError_text)   (* [substring] is no function *)
      end
    else ([], st, None)
  else if startsWith eventType (js "session.") || startsWith eventType (js "message.")
  then ([js "Event: " ++ eventType], st, None)
  else ([], st, None).

(** X21.  On every event other than session.created, the hook of the first
    version logs, throws and changes [sessionState] exactly as the hook of
    the second version does. *)
Theorem event_as_in_second_version
    (now : Z) (ev : AuthPlugin.Event) (st : SessionState) :
  AuthPlugin.type ev <> js "session.created" ->
  event now ev st
  = AuthPlugin.event ToString_object JSON_stringify TypeError_text formatDuration_unsafe
    now ev st.
Proof.
  intros Htype. unfold event, AuthPlugin.event.
  destruct (decide (AuthPlugin.type ev = js "session.status")); [reflexivity|].
  destruct (decide (AuthPlugin.type ev = js "session.idle")); [reflexivity|].
  destruct (decide (AuthPlugin.type ev = js "session.error")); [reflexivity|].
  destruct (decide (AuthPlugin.type ev = js "session.created")); [contradiction|].
  reflexivity.
Qed.

(** X22.  In the first version a session.created event at time [t0] starts
    the clock, so the session.idle event that follows at time [t1] logs the
    duration [t1 - t0]; the second version only logs the session.created
    event and leaves [sessionState] as it was. *)
Theorem created_then_idle_logs_duration
    (t0 t1 : Z) (created idle : AuthPlugin.Event) (st : SessionState) :
  AuthPlugin.type created = js "session.created" ->
  AuthPlugin.type idle = js "session.idle" ->
  t0 <> 0%Z ->
  event t1 idle (snd (fst (event t0 created st)))
  = ([js "Session completed in " ++ AuthPlugin.formatDuration formatDuration_unsafe (t1
    - t0)],
     {| requestStartTime := None;
        lastStatus := JStr (js "idle");
        isProcessing := false |},
     None)
  /\ AuthPlugin.event ToString_object JSON_stringify TypeError_text
    formatDuration_unsafe t0 created st
     = ([js "Event: session.created"], st, None).
Proof.
  intros Hcreated Hidle Ht0. apply Z.eqb_neq in Ht0. split.
  - unfold event. rewrite Hcreated, Hidle.
    repeat decide_type.
    cbn [fst snd requestStartTime AuthPlugin.time_truthy default].
    now rewrite Ht0.
  - unfold AuthPlugin.event. rewrite Hcreated.
    repeat decide_type.
    reflexivity.
Qed.

End Plugin.

End SessionLogger.

(** ** Concrete runs of the plugin *)

Module PluginScenario.

Definition quote : jsstring := [34%N].

(** The text of an auth.json whose [dymium.key] is two blanks. *)
Definition blank_key_text : jsstring :=
  js "{" ++ quote ++ js "dymium" ++ quote ++ js ":{" ++ quote ++ js "key" ++ quote
  ++ js ":" ++ quote ++ js "  " ++ quote ++ js "}}".

Definition blank_key_value : Json jsstring :=
  JObj [ (js "dymium", JObj [ (js "key", JStr (js "  ")) ]) ].

(** A [JSON.parse] that knows this one document. *)
Definition parse (text : jsstring) : Exc (Json jsstring) :=
  if decide (text = blank_key_text) then Normal blank_key_value
  else Thrown (js "SyntaxError").

(** A home directory with that auth.json and no token file. *)
Definition only_auth_json : FileSystem :=
  {| homedir := js "/home/dev";
     existsSync := fun path =>
       bool_decide (path = js "/home/dev/.local/share/opencode/auth.json");
     readFileSync := fun path =>
       if decide (path = js "/home/dev/.local/share/opencode/auth.json")
       then Normal blank_key_text
       else Thrown (js "Error: ENOENT") |}.

Definition provider : option (Json jsstring) :=
  Some (JObj [ (js "id", JStr (js "dymium")) ]).

Definition idle : AuthPlugin.Event :=
  {| AuthPlugin.type := js "session.idle"; AuthPlugin.properties := None |}.

Definition part_updated : AuthPlugin.Event :=
  {| AuthPlugin.type := js "message.part.updated";
     AuthPlugin.properties :=
       Some (JObj [ (js "part", JObj [ (js "type", JStr (js "reasoning"));
                                       (js "reasoning", JStr (js "Securing")) ]) ]) |}.

Definition step (r : nat) (t : Z) (a : AuthPlugin.Action) : AuthPlugin.Step :=
  {| AuthPlugin.request_of := r; AuthPlugin.at_time := t; AuthPlugin.action := a |}.

(** Two requests overlap: the second starts before the first is idle. *)
Definition overlapping : list AuthPlugin.Step :=
  [ step 1 1000 (AuthPlugin.CallLoader provider);
    step 2 5000 (AuthPlugin.CallLoader provider);
    step 1 6000 (AuthPlugin.Deliver idle);
    step 2 9000 (AuthPlugin.Deliver idle) ].

Definition no_ToString (v : Json jsstring) : jsstring := js "[object Object]".

(** A home directory whose token file holds a token between blanks and a
    line end, and no auth.json. *)
Definition with_token_file : FileSystem :=
  {| homedir := js "/home/dev";
     existsSync := fun path =>
       bool_decide (path = js "/home/dev/.local/share/dymium-provider/token");
     readFileSync := fun path =>
       if decide (path = js "/home/dev/.local/share/dymium-provider/token")
       then Normal (js "  eyJhbGciOi" ++ [10%N])
       else Thrown (js "Error: ENOENT") |}.

Definition status_securing : AuthPlugin.Event :=
  {| AuthPlugin.type := js "session.status";
     AuthPlugin.properties := Some (JObj [ (js "status", JStr (js "securing")) ]) |}.

Definition created : AuthPlugin.Event :=
  {| AuthPlugin.type := js "session.created"; AuthPlugin.properties := None |}.

(** A reasoning part whose [reasoning] is a number. *)
Definition part_with_number : AuthPlugin.Event :=
  {| AuthPlugin.type := js "message.part.updated";
     AuthPlugin.properties :=
       Some (JObj [ (js "part", JObj [ (js "type", JStr (js "reasoning"));
                                       (js "reasoning", JNum 42) ]) ]) |}.

(** What reaches the hook between the loader call and the idle event. *)
Definition while_running : list AuthPlugin.Step :=
  [ step 1 2000 (AuthPlugin.Deliver status_securing);
    step 1 3000 (AuthPlugin.Deliver part_updated) ].

Definition not_a_function : jsstring := js "TypeError: substring is not a function".

(** No duration of these runs is beyond the safe integers. *)
Definition unsafe_duration (ms : Z) : jsstring := js "".

Definition invalid_header (name value : jsstring) : jsstring :=
  js "TypeError: Invalid header".

Definition invalid_init (init : list (jsstring * jsstring)) : jsstring :=
  js "TypeError: Invalid headers".

(** A home directory whose token file holds two lines, and no auth.json. *)
Definition with_two_line_token : FileSystem :=
  {| homedir := js "/home/dev";
     existsSync := fun path =>
       bool_decide (path = js "/home/dev/.local/share/dymium-provider/token");
     readFileSync := fun path =>
       if decide (path = js "/home/dev/.local/share/dymium-provider/token")
       then Normal (js "eyJhbGciOi" ++ [10%N] ++ js "eyJzdWIiOi" ++ [10%N])
       else Thrown (js "Error: ENOENT") |}.

Definition completions : RequestInfo :=
  InputString (js "https://ghostllm.example.com/v1/chat/completions").

(** Headers of a caller, one of them under a name with a blank in it. *)
Definition init_with_blank_in_name : option RequestInit :=
  Some {| method := Some (js "POST");
          headers := Some [ (js "Content-Type", js "application/json");
                            (js "X Trace", js "1") ];
          body_init := Some (BodyString (js "{}")) |}.

(** A [Request] that carries a header of its own. *)
Definition request_with_header : RequestInfo :=
  InputRequest {| url := js "https://ghostllm.example.com/v1/chat/completions";
                  request_headers := [ (js "x-ghostllm-app", js "opencode") ] |}.

Definition error : AuthPlugin.Event :=
  {| AuthPlugin.type := js "session.error"; AuthPlugin.properties := None |}.

(** Two requests take turns: the second calls the loader only after the
    first is idle, and each receives status events and message updates
    while the clock of the other is running. *)
Definition taking_turns : list AuthPlugin.Step :=
  [ step 1 1000 (AuthPlugin.CallLoader provider);
    step 2 1500 (AuthPlugin.Deliver status_securing);
    step 2 2000 (AuthPlugin.Deliver part_updated);
    step 1 6000 (AuthPlugin.Deliver idle);
    step 1 6500 (AuthPlugin.Deliver idle);
    step 2 7000 (AuthPlugin.CallLoader provider);
    step 1 7500 (AuthPlugin.Deliver status_securing);
    step 1 8000 (AuthPlugin.Deliver part_updated);
    step 2 9000 (AuthPlugin.Deliver error) ].

End PluginScenario.

(** C8 fails on a key of blanks: it is a non-empty string, and [resolveToken]
    returns null, not the empty string the wording gives. *)
Lemma resolveToken_blank_key_is_null :
  TokenPlugin.resolveToken PluginScenario.parse PluginScenario.only_auth_json
  = Normal None
  /\ TokenPlugin.resolveToken_as_worded PluginScenario.parse PluginScenario.only_auth_json
     = Some []
  /\ TokenPlugin.resolveToken PluginScenario.parse PluginScenario.only_auth_json
     <> Normal (TokenPlugin.resolveToken_as_worded PluginScenario.parse
                  PluginScenario.only_auth_json).
Proof.
  assert (TokenPlugin.resolveToken PluginScenario.parse PluginScenario.only_auth_json
          = Normal None) as Hcode by (vm_compute; reflexivity).
  assert (TokenPlugin.resolveToken_as_worded PluginScenario.parse
            PluginScenario.only_auth_json = Some []) as Hwords by (vm_compute; reflexivity).
  split; [exact Hcode|]. split; [exact Hwords|].
  rewrite Hcode, Hwords. discriminate.
Qed.

(** C5 fails on two overlapping requests: the idle event of the first clears
    the start time the second one set, so the second logs no duration. *)
Lemma overlapping_requests_interfere :
  ~ AuthPlugin.requests_do_not_interfere PluginScenario.no_ToString
      PluginScenario.no_ToString [] PluginScenario.unsafe_duration
      PluginScenario.overlapping.
Proof.
  intros H. specialize (H 2). vm_compute in H. discriminate H.
Qed.

(** Two requests that take turns, each using the tracker and each receiving
    events while the clock of the other runs, are both seen as when served
    alone. *)
Lemma request_keeping_its_clock_is_undisturbed_witness :
  (AuthPlugin.keeps_its_clock 1 None false PluginScenario.taking_turns = true
   /\ AuthPlugin.seen_of PluginScenario.no_ToString PluginScenario.no_ToString []
        PluginScenario.unsafe_duration 1 PluginScenario.taking_turns
        AuthPlugin.sessionState0
      = AuthPlugin.seen_of PluginScenario.no_ToString PluginScenario.no_ToString []
          PluginScenario.unsafe_duration 1
          (AuthPlugin.alone 1 PluginScenario.taking_turns) AuthPlugin.sessionState0)
  /\ (AuthPlugin.keeps_its_clock 2 None false PluginScenario.taking_turns = true
      /\ AuthPlugin.seen_of PluginScenario.no_ToString PluginScenario.no_ToString []
           PluginScenario.unsafe_duration 2 PluginScenario.taking_turns
           AuthPlugin.sessionState0
         = AuthPlugin.seen_of PluginScenario.no_ToString PluginScenario.no_ToString []
             PluginScenario.unsafe_duration 2
             (AuthPlugin.alone 2 PluginScenario.taking_turns)
             AuthPlugin.sessionState0).
Proof.
  assert (AuthPlugin.keeps_its_clock 1 None false PluginScenario.taking_turns = true)
    as Hfirst by (vm_compute; reflexivity).
  assert (AuthPlugin.keeps_its_clock 2 None false PluginScenario.taking_turns = true)
    as Hsecond by (vm_compute; reflexivity).
  split; (split; [assumption|]).
  - apply (AuthPlugin.request_keeping_its_clock_is_undisturbed
             PluginScenario.no_ToString PluginScenario.no_ToString []
             PluginScenario.unsafe_duration 1 PluginScenario.taking_turns Hfirst).
  - apply (AuthPlugin.request_keeping_its_clock_is_undisturbed
             PluginScenario.no_ToString PluginScenario.no_ToString []
             PluginScenario.unsafe_duration 2 PluginScenario.taking_turns Hsecond).
Defined.

(** C9 fails in three ways.  A token file of two lines gives a token with a
    line feed inside, for which [headers.set] throws; without a token, a
    header name of the caller with a blank in it makes [new Headers] throw;
    and without a token and without [init], the headers a [Request] carries
    are replaced by the empty headers the wrapper passes on. *)
Lemma fetch_throws_or_drops_headers :
  ~ TokenPlugin.fetch_as_claimed PluginScenario.parse PluginScenario.invalid_header
      PluginScenario.invalid_init
      PluginScenario.with_two_line_token PluginScenario.completions None
  /\ ~ TokenPlugin.fetch_as_claimed PluginScenario.parse PluginScenario.invalid_header
      PluginScenario.invalid_init
         PluginScenario.only_auth_json PluginScenario.completions
         PluginScenario.init_with_blank_in_name
  /\ ~ TokenPlugin.fetch_as_claimed PluginScenario.parse PluginScenario.invalid_header
      PluginScenario.invalid_init
         PluginScenario.only_auth_json PluginScenario.request_with_header None.
Proof.
  assert (TokenPlugin.resolveToken PluginScenario.parse PluginScenario.with_two_line_token
          = Normal (Some (js "eyJhbGciOi" ++ [10%N] ++ js "eyJzdWIiOi")))
    as Htwo by (vm_compute; reflexivity).
  assert (TokenPlugin.resolveToken PluginScenario.parse PluginScenario.only_auth_json
          = Normal None) as Hnone by (vm_compute; reflexivity).
  unfold TokenPlugin.fetch_as_claimed. rewrite Htwo, Hnone.
  split; [|split].
  - intros (call & Hcall & _). vm_compute in Hcall. discriminate Hcall.
  - intros (call & Hcall & _). vm_compute in Hcall. discriminate Hcall.
  - intros (call & Hcall & _ & Hheaders).
    vm_compute in Hcall. injection Hcall as <-.
    vm_compute in Hheaders. discriminate Hheaders.
Qed.

(** ** Concrete runs for the further properties *)

(** Content whose cut at offset 50 falls between two characters: both slices
    are valid UTF-8, and the fragments make up the content. *)
Lemma sendContentEvent_fragments_concat_witness :
  Forall (fun sl => utf8_ValidString sl = true)
    (EventsGuide.slices Scenario.aligned_content)
  /\ exists s' frags,
       EventsGuide.sendContentEvent nat Scenario.fresh_ids Scenario.clock
         Scenario.aligned_content (fresh_writer true, 0) = (Returned tt, s')
       /\ map shape_of (body (fst s')) = map ContentFrame frags
       /\ String.concat "" frags = Scenario.aligned_content.
Proof.
  assert (Forall (fun sl => utf8_ValidString sl = true)
            (EventsGuide.slices Scenario.aligned_content)) as Hvalid
    by (vm_compute; repeat constructor).
  split; [exact Hvalid|].
  apply (EventsGuide.sendContentEvent_fragments_concat nat Scenario.fresh_ids
           Scenario.clock Scenario.aligned_content 0 Hvalid).
Defined.

(** The greeting scenario: the upstream call hands back the greeting, which
    is sent in one content frame. *)
Lemma chatHandler_delivers_deobfuscated_content_witness :
  EventsGuide.response_of unit (list (string * string)) string
    (fun request => (request, Scenario.john_smith)) (fun _ => Scenario.greeting) tt
  = Some {| EventsGuide.Content := "Hello! 👋 Nice to meet you, John Smith." |}
  /\ exists s',
       Scenario.events_run true Scenario.john_smith Scenario.greeting = (Returned tt, s')
       /\ map shape_of (body (fst s'))
          = [Reasoning EventsGuide.msg_securing]
            ++ EventsGuide.protected_phase unit (list (string * string))
                 (fun request => (request, Scenario.john_smith)) (@length _) tt
            ++ [Reasoning EventsGuide.msg_waiting; Reasoning EventsGuide.msg_restoring]
            ++ map ContentFrame
                 (map json_string
                    (EventsGuide.slices "Hello! 👋 Nice to meet you, John Smith."))
            ++ [Terminal (JStr "stop"); DoneMark]
       /\ String.concat ""
            (EventsGuide.slices "Hello! 👋 Nice to meet you, John Smith.")
          = "Hello! 👋 Nice to meet you, John Smith.".
Proof.
  split; [reflexivity|].
  exact (EventsGuide.chatHandler_delivers_deobfuscated_content nat Scenario.fresh_ids
           Scenario.clock unit (list (string * string)) string
           (fun request => (request, Scenario.john_smith)) (@length _)
           (fun _ => Scenario.greeting) (fun content _ => content) tt 0
           {| EventsGuide.Content := "Hello! 👋 Nice to meet you, John Smith." |}
           eq_refl).
Defined.

(** A token file with blanks around the token: the token comes back trimmed. *)
Lemma resolveToken_is_trimmed_witness :
  TokenPlugin.resolveToken PluginScenario.parse PluginScenario.with_token_file
  = Normal (Some (js "eyJhbGciOi"))
  /\ js "eyJhbGciOi" <> []
  /\ trim (js "eyJhbGciOi") = js "eyJhbGciOi".
Proof.
  assert (TokenPlugin.resolveToken PluginScenario.parse PluginScenario.with_token_file
          = Normal (Some (js "eyJhbGciOi"))) as Htoken by (vm_compute; reflexivity).
  split; [exact Htoken|].
  apply (TokenPlugin.resolveToken_is_trimmed PluginScenario.parse
           PluginScenario.with_token_file (js "eyJhbGciOi") Htoken).
Defined.

(** A reasoning part whose [reasoning] is a number makes the hook throw. *)
Lemma event_throws_only_on_part_update_witness :
  snd (AuthPlugin.event PluginScenario.no_ToString PluginScenario.no_ToString
         PluginScenario.not_a_function PluginScenario.unsafe_duration 3000
           PluginScenario.part_with_number
         AuthPlugin.sessionState0)
  = Some PluginScenario.not_a_function
  /\ AuthPlugin.type PluginScenario.part_with_number = js "message.part.updated"
  /\ (exists reasoning,
        opt_member (js "reasoning")
          (opt_member (js "part")
             (AuthPlugin.or_else (AuthPlugin.properties PluginScenario.part_with_number)
                (Some (JObj []))))
        = Some reasoning
        /\ reasoning <> JNull /\ forall s, reasoning <> JStr s)
  /\ AuthPlugin.event PluginScenario.no_ToString PluginScenario.no_ToString
       PluginScenario.not_a_function PluginScenario.unsafe_duration 3000
         PluginScenario.part_with_number
       AuthPlugin.sessionState0
     = ([], AuthPlugin.sessionState0, Some PluginScenario.not_a_function).
Proof.
  assert (snd (AuthPlugin.event PluginScenario.no_ToString PluginScenario.no_ToString
                 PluginScenario.not_a_function PluginScenario.unsafe_duration 3000
                   PluginScenario.part_with_number
                 AuthPlugin.sessionState0)
          = Some PluginScenario.not_a_function) as Hthrown by (vm_compute; reflexivity).
  split; [exact Hthrown|].
  apply (AuthPlugin.event_throws_only_on_part_update PluginScenario.no_ToString
           PluginScenario.no_ToString PluginScenario.not_a_function
             PluginScenario.unsafe_duration 3000
           PluginScenario.part_with_number AuthPlugin.sessionState0
           PluginScenario.not_a_function Hthrown).
Defined.


(** The loader is called at 1000, a status event and a reasoning update
    follow, and the idle event arrives at 66000: the hook logs 1m 5s. *)
Lemma loader_then_idle_logs_duration_witness :
  Forall (fun s => AuthPlugin.starts_clock (AuthPlugin.action s) = false
                   /\ AuthPlugin.stops_clock (AuthPlugin.action s) = false)
    PluginScenario.while_running
  /\ AuthPlugin.event PluginScenario.no_ToString PluginScenario.no_ToString []
    PluginScenario.unsafe_duration
       66000 PluginScenario.idle
       (AuthPlugin.state_after PluginScenario.no_ToString PluginScenario.no_ToString []
         PluginScenario.unsafe_duration
          (PluginScenario.step 1 1000 (AuthPlugin.CallLoader PluginScenario.provider)
           :: PluginScenario.while_running)
          AuthPlugin.sessionState0)
     = ([js "Session completed in 1m 5s"],
        {| requestStartTime := None;
           lastStatus := JStr (js "idle");
           isProcessing := false |},
        None).
Proof.
  assert (Forall (fun s => AuthPlugin.starts_clock (AuthPlugin.action s) = false
                           /\ AuthPlugin.stops_clock (AuthPlugin.action s) = false)
            PluginScenario.while_running) as Hbetween by repeat constructor.
  split; [exact Hbetween|].
  apply (AuthPlugin.loader_then_idle_logs_duration PluginScenario.no_ToString
           PluginScenario.no_ToString [] PluginScenario.unsafe_duration
           (PluginScenario.step 1 1000 (AuthPlugin.CallLoader PluginScenario.provider))
           PluginScenario.while_running 66000 PluginScenario.idle
           AuthPlugin.sessionState0);
    [reflexivity | discriminate | exact Hbetween | reflexivity].
Defined.

(** An idle event is handled alike by both versions. *)
Lemma event_as_in_second_version_witness :
  AuthPlugin.type PluginScenario.idle <> js "session.created"
  /\ SessionLogger.event PluginScenario.no_ToString PluginScenario.no_ToString []
    PluginScenario.unsafe_duration
       6000 PluginScenario.idle AuthPlugin.sessionState0
     = AuthPlugin.event PluginScenario.no_ToString PluginScenario.no_ToString []
       PluginScenario.unsafe_duration
         6000 PluginScenario.idle AuthPlugin.sessionState0.
Proof.
  assert (AuthPlugin.type PluginScenario.idle <> js "session.created") as Htype
    by (vm_compute; discriminate).
  split; [exact Htype|].
  apply (SessionLogger.event_as_in_second_version PluginScenario.no_ToString
           PluginScenario.no_ToString [] PluginScenario.unsafe_duration 6000
             PluginScenario.idle
           AuthPlugin.sessionState0 Htype).
Defined.

(** A session created at 1000 and idle at 1500 took 500ms. *)
Lemma created_then_idle_logs_duration_witness :
  SessionLogger.event PluginScenario.no_ToString PluginScenario.no_ToString []
    PluginScenario.unsafe_duration
    1500 PluginScenario.idle
    (snd (fst (SessionLogger.event PluginScenario.no_ToString
                 PluginScenario.no_ToString [] PluginScenario.unsafe_duration 1000
                   PluginScenario.created
                 AuthPlugin.sessionState0)))
  = ([js "Session completed in 500ms"],
     {| requestStartTime := None;
        lastStatus := JStr (js "idle");
        isProcessing := false |},
     None)
  /\ AuthPlugin.event PluginScenario.no_ToString PluginScenario.no_ToString []
    PluginScenario.unsafe_duration
       1000 PluginScenario.created AuthPlugin.sessionState0
     = ([js "Event: session.created"], AuthPlugin.sessionState0, None).
Proof.
  apply (SessionLogger.created_then_idle_logs_duration PluginScenario.no_ToString
           PluginScenario.no_ToString [] PluginScenario.unsafe_duration 1000 1500
             PluginScenario.created
           PluginScenario.idle AuthPlugin.sessionState0);
    [reflexivity | reflexivity | discriminate].
Defined.

(** An auth.json whose key is two blanks and no token file: the auth plugin
    takes the two blanks as the token, the token plugin has no token. *)
Lemma getDymiumToken_does_not_trim_witness :
  AuthPlugin.getDymiumToken PluginScenario.parse [] PluginScenario.only_auth_json
  = ([], Some (JStr (js "  ")))
  /\ TokenPlugin.resolveToken PluginScenario.parse PluginScenario.only_auth_json
     = Normal None.
Proof.
  apply (AuthPlugin.getDymiumToken_does_not_trim PluginScenario.parse []
           PluginScenario.only_auth_json PluginScenario.blank_key_text
           PluginScenario.blank_key_value (js "  ") (js "Error: ENOENT"));
    solve [vm_compute; reflexivity | discriminate].
Defined.

(** 65 seconds and a bit are shown as one minute and five seconds. *)
Lemma formatDuration_rounds_down_witness :
  isSafeInteger 65432 = true
  /\ (((65432 < 1000)%Z
       /\ AuthPlugin.formatDuration PluginScenario.unsafe_duration 65432
          = number_toString 65432 ++ js "ms")
      \/ (exists s : Z,
            (1 <= s < 60)%Z /\ (s * 1000 <= 65432 < (s + 1) * 1000)%Z
            /\ AuthPlugin.formatDuration PluginScenario.unsafe_duration 65432
               = number_toString s ++ js "s")
      \/ (exists m s : Z,
            (1 <= m)%Z /\ (0 <= s < 60)%Z
            /\ ((m * 60 + s) * 1000 <= 65432 < (m * 60 + s + 1) * 1000)%Z
            /\ AuthPlugin.formatDuration PluginScenario.unsafe_duration 65432
               = number_toString m ++ js "m " ++ number_toString s ++ js "s")).
Proof.
  split; [reflexivity|].
  apply (AuthPlugin.formatDuration_rounds_down PluginScenario.unsafe_duration
           65432 eq_refl).
Defined.
